(** * Books RAG: the control graph of [api.py] / [rag.py]

    A shallow embedding of the retrieval-augmented-generation graph:
    the retriever tool, the grader, the rewriter, the generator, the
    LangGraph wiring of [build_graph] and the [/api/ask] handler.

    The language model, the vector index and the graph runtime are
    external collaborators, gathered in an environment [Env]: every
    model or index call is a function of its argument and of an abstract
    [World] that it may change, and it may raise.  The state of the
    Python process is that world, the module global [retrieved_sources]
    and a ghost log of the calls made.  The tool node runs the tool
    calls of one reply on a pool of threads, which take their steps on
    the one process as the scheduler, a collaborator too, has it.

    The embedding follows [api.py].  [rag.py] builds the same graph from
    the same four functions; there they also print their progress, and
    the tool keeps no list of sources. *)

From Stdlib Require Import String Ascii List ZArith Lia Bool Arith DecimalString.
From Stdlib Require Import Floats.SpecFloat.
Import ListNotations.
Open Scope string_scope.

(** ** Python values found in document metadata *)

Module Py.

(** The values a metadata entry can hold.  [VFloat] carries an IEEE
    value, so NaN and the infinities are values of the type, as they
    are of Python's [float]; [VOther] is any other object (a list, a
    dict), kept as the text [str] gives for it. *)
Inductive value : Type :=
| VNone
| VBool (b : bool)
| VInt (z : Z)
| VFloat (f : spec_float)
| VStr (s : string)
| VOther (text : string).

(** A value that is an instance of [int] or [float]; [bool] is a
    subclass of [int]. *)
Inductive number : Type :=
| NBool (b : bool)
| NInt (z : Z)
| NFloat (f : spec_float).

Inductive exn : Type :=
| ValueError            (* int(float('nan')) *)
| OverflowError         (* int(float('inf')) *)
| IndexError            (* subscript of an empty list *)
| ValidationError       (* pydantic refuses a field *)
| GraphRecursionError   (* the graph runtime ran out of steps *)
| Failure (what : string). (* raised by a model or index call *)

Inductive result (A : Type) : Type :=
| Ok (a : A)
| Raise (e : exn).
Arguments Ok {A} a.
Arguments Raise {A} e.

(** [isinstance(v, (int, float))], with the number [v] then is. *)
Definition as_number (v : value) : option number :=
  match v with
  | VBool b => Some (NBool b)
  | VInt z => Some (NInt z)
  | VFloat f => Some (NFloat f)
  | VNone | VStr _ | VOther _ => None
  end.

Definition is_int_or_float (v : value) : bool :=
  match as_number v with
  | Some _ => true
  | None => false
  end.

(** [int(f)] on a float: truncation toward zero; NaN and the
    infinities raise. *)
Definition int_of_float (f : spec_float) : result Z :=
  match f with
  | S754_zero _ => Ok 0%Z
  | S754_finite s m e =>
      let a := Z.shiftl (Zpos m) e in
      Ok (if s then (- a)%Z else a)
  | S754_nan => Raise ValueError
  | S754_infinity _ => Raise OverflowError
  end.

(** [int(n)] on a number. *)
Definition int (n : number) : result Z :=
  match n with
  | NBool b => Ok (if b then 1%Z else 0%Z)
  | NInt z => Ok z
  | NFloat f => int_of_float f
  end.

(** [d.get(key, default)] on a dict kept as an association list. *)
Fixpoint dict_get (d : list (string * value)) (key : string) (default : value) : value :=
  match d with
  | [] => default
  | (k, v) :: rest => if String.eqb k key then v else dict_get rest key default
  end.

(** [s[:n]] *)
Definition slice_to (n : nat) (s : string) : string := substring 0 n s.

End Py.
Import Py.

(** ** Data model *)

(** A LangChain [Document]. *)
Record Document : Type := mkDocument {
  page_content : string;
  metadata : list (string * value)
}.

(** The dict appended to [retrieved_sources]. *)
Record SourceRecord : Type := mkSourceRecord {
  rec_source_file : value;
  rec_page : Z;
  rec_content_preview : string
}.

(** [class SourceDocument(BaseModel)] *)
Record SourceDocument : Type := mkSourceDocument {
  source_file : string;
  page : Z;
  content_preview : string
}.

Record QuestionRequest : Type := mkQuestionRequest {
  question : string;
  include_sources : option bool
}.

Record QuestionResponse : Type := mkQuestionResponse {
  resp_question : string;
  resp_answer : string;
  resp_sources : option (list SourceDocument)
}.

Record HTTPException : Type := mkHTTPException {
  status_code : Z;
  detail : string
}.

(** Conversation turns.  A tool call of the router carries the [query]
    argument of the one tool bound to it, [retrieve_from_books]. *)
Inductive Role : Type := human | ai | tool.

Record Message : Type := mkMessage {
  role : Role;
  content : string;
  tool_calls : list string
}.

Definition HumanMessage (c : string) : Message := mkMessage human c [].
Definition AIMessage (c : string) (calls : list string) : Message := mkMessage ai c calls.
Definition ToolMessage (c : string) : Message := mkMessage tool c [].

(** Nodes of the graph, named after the strings [build_graph] gives
    them; [at_END] is LangGraph's terminal node [END]. *)
Inductive Node : Type :=
| at_generate_query_or_respond
| at_retrieve
| at_rewrite_question
| at_generate_answer
| at_END.

(** ** The source record of one document ([retrieve_from_books], loop body) *)

(** [doc.page_content[:200] + "..." if len(doc.page_content) > 200 else doc.page_content] *)
Definition preview_of (text : string) : string :=
  if Nat.ltb 200 (String.length text) then slice_to 200 text ++ "..." else text.

(** [int(page) if isinstance(page, (int, float)) else 0] *)
Definition page_of (p : value) : result Z :=
  match as_number p with
  | Some n => Py.int n
  | None => Ok 0%Z
  end.

Definition doc_source (doc : Document) : value :=
  dict_get (metadata doc) "source_file" (VStr "Unknown").

Definition doc_page (doc : Document) : value :=
  dict_get (metadata doc) "page" (VStr "Unknown").

Definition source_record (doc : Document) : result SourceRecord :=
  match page_of (doc_page doc) with
  | Ok n => Ok (mkSourceRecord (doc_source doc) n (preview_of (page_content doc)))
  | Raise e => Raise e
  end.

(** Building a [SourceDocument] from a stored record: pydantic checks
    the declared field types; [source_file: str] accepts a string only. *)
Definition SourceDocument_of (r : SourceRecord) : result SourceDocument :=
  match rec_source_file r with
  | VStr s => Ok (mkSourceDocument s (rec_page r) (rec_content_preview r))
  | _ => Raise ValidationError
  end.

(** ** Prompts: [PROMPT.format(...)] as a function of the fields *)

Definition GRADE_PROMPT (question context : string) : string :=
  "You are a grader assessing relevance of retrieved documents to a student's question.

Here is the retrieved document:
" ++ context ++ "

Here is the student's question: " ++ question ++ "

If the document contains information that could help answer the student's question (keywords, concepts, formulas, explanations related to the topic), grade it as relevant.

Give a binary score 'yes' or 'no' to indicate whether the document is relevant to the question.".

Definition REWRITE_PROMPT (question : string) : string :=
  "You are helping to improve a student's question for better search results.

The previous search didn't return relevant results. Please rewrite the question to be more specific or use different terminology that might be found in school textbooks.

Original question: " ++ question ++ "

Rewrite the question to improve search results (keep it focused on the educational topic):".

Definition GENERATE_PROMPT (question context : string) : string :=
  "You are a helpful educational assistant for students. Use the following information from school books to answer the student's question.

Instructions:
- Provide a clear, educational explanation suitable for students
- If the context includes formulas or equations, explain them step by step
- If you're not sure about something, say so
- Keep the answer focused and concise

Question: " ++ question ++ "

Context from books:
" ++ context ++ "

Answer:".

Definition NO_RESULTS : string := "No relevant information found in the books.".

Definition newline : string := String (ascii_of_nat 10) "".

(** The separator of [retrieve_from_books]' final [join]. *)
Definition SEPARATOR : string := newline ++ newline ++ "---" ++ newline ++ newline.

(** ** External collaborators *)

(** What the graph calls and does not define.  Each call takes the
    world it runs in and gives back the world it leaves.
    - [retriever_invoke]: [retriever.invoke(query)];
    - [route_llm]: [llm.bind_tools([retriever_tool]).invoke(messages)],
      the content and the tool calls of the reply;
    - [grader_llm]: [llm.with_structured_output(GradeDocuments).invoke]
      on a one-turn prompt, the [binary_score] of the reply;
    - [llm_invoke]: [llm.invoke] on a one-turn prompt, the content of
      the reply;
    - [handle_tool_errors]: what [ToolNode] does with an exception of
      the tool: [Some text] turns it into a tool-result turn with that
      text, [None] lets it propagate (the default differs between
      releases of the library);
    - [tool_schedule]: how the threads on which [ToolNode] runs the
      tool calls of one reply take turns: the threads, each named by
      the position of its call, in the order of their steps (the
      scheduler is the operating system's);
    - [exn_str]: [str(e)];
    - [float_str]: [str(x)] of a float. *)
Record Env : Type := mkEnv {
  World : Type;
  retriever_invoke : string -> World -> result (list Document) * World;
  route_llm : list Message -> World -> result (string * list string) * World;
  grader_llm : string -> World -> result string * World;
  llm_invoke : string -> World -> result string * World;
  handle_tool_errors : exn -> option string;
  tool_schedule : list string -> World -> list nat;
  exn_str : exn -> string;
  float_str : spec_float -> string
}.

(** Ghost record of what a request did, newest first.  A call event is
    logged when the call is made, a result event when it returns. *)
Inductive event : Type :=
| EvNode (n : Node)
| EvRetrieve (query : string)
| EvRetrieved (docs : list Document)
| EvToolMessage (text : string)
| EvGrade (question context score : string)
| EvRewrite (question rewritten : string)
| EvGenerate (question context answer : string).

(** ** Ingestion ([generate_embeddings.py]) *)

(** [d[key] = v] on a dict kept as an association list. *)
Fixpoint dict_set (d : list (string * value)) (key : string) (v : value)
  : list (string * value) :=
  match d with
  | [] => [(key, v)]
  | (k, x) :: rest =>
      if String.eqb k key then (k, v) :: rest else (k, x) :: dict_set rest key v
  end.

(** [doc.metadata["source_file"] = pdf_path.name] *)
Definition tag_source (name : string) (doc : Document) : Document :=
  mkDocument (page_content doc) (dict_set (metadata doc) "source_file" (VStr name)).

(** [load_pdfs], on the files the glob found: [load path] stands for
    [PyPDFLoader(str(pdf_path)).load()] and [name path] for
    [pdf_path.name].  A file whose loading raises is reported and
    skipped (the console output is left out). *)
Fixpoint load_pdfs (load : string -> result (list Document)) (name : string -> string)
  (pdf_files : list string) : list Document :=
  match pdf_files with
  | [] => []
  | pdf_path :: rest =>
      match load pdf_path with
      | Ok docs => map (tag_source (name pdf_path)) docs ++ load_pdfs load name rest
      | Raise _ => load_pdfs load name rest
      end
  end.

(** [range(0, stop, step)] for a positive [step]. *)
Definition range_from_zero (stop step : nat) : list nat :=
  map (fun k => k * step) (seq 0 ((stop + step - 1) / step)).

(** [l[i:j]] for indices [0 <= i <= j]; the end is clamped to the list. *)
Definition slice {A : Type} (i j : nat) (l : list A) : list A :=
  firstn (j - i) (skipn i l).

(** The storing loop of [main]: the batches handed, in turn, to
    [vector_store.add_documents], and the counts it prints after each. *)
Definition batches {A : Type} (batch_size : nat) (chunks : list A) : list (list A) :=
  map (fun i => slice i (i + batch_size) chunks)
      (range_from_zero (List.length chunks) batch_size).

Definition progress {A : Type} (batch_size : nat) (chunks : list A) : list nat :=
  map (fun i => Nat.min (i + batch_size) (List.length chunks))
      (range_from_zero (List.length chunks) batch_size).

Definition batch_size : nat := 100.

(** ** Console output ([rag.py])

    A Python string that goes to the terminal is kept as its
    characters, with each ANSI colour code (a run of characters the
    terminal does not show) kept as one cell. *)

Inductive cell : Type :=
| Glyph (c : N)
| Code (escape : list N).

Definition text : Type := list cell.

(** [len(t)]: every character counts, also those of a colour code. *)
Fixpoint py_len (t : text) : Z :=
  match t with
  | [] => 0
  | Glyph _ :: rest => 1 + py_len rest
  | Code escape :: rest => Z.of_nat (List.length escape) + py_len rest
  end.

(** The characters the terminal shows. *)
Fixpoint visible (t : text) : Z :=
  match t with
  | [] => 0
  | Glyph _ :: rest => 1 + visible rest
  | Code _ :: rest => visible rest
  end.

(** [c * n] for a one-character string [c]: empty when [n <= 0]. *)
Definition times (c : N) (n : Z) : text := repeat (Glyph c) (Z.to_nat n).

(** A literal of plain characters. *)
Definition lit (s : string) : text :=
  map (fun a => Glyph (N_of_ascii a)) (list_ascii_of_string s).

(** [t.split('\n')] *)
Fixpoint split_lines (t : text) : list text :=
  match t with
  | [] => [[]]
  | Glyph 10%N :: rest => [] :: split_lines rest
  | x :: rest =>
      match split_lines rest with
      | line :: lines => (x :: line) :: lines
      | [] => [[x]]
      end
  end.

(** colorama's codes. *)
Definition Fore_GREEN : cell := Code [27; 91; 51; 50; 109]%N.
Definition Fore_CYAN : cell := Code [27; 91; 51; 54; 109]%N.
Definition Fore_WHITE : cell := Code [27; 91; 51; 55; 109]%N.
Definition Style_BRIGHT : cell := Code [27; 91; 49; 109]%N.
Definition Style_RESET_ALL : cell := Code [27; 91; 48; 109]%N.

(** The box-drawing characters, by code point. *)
Definition dbl_top_left : N := 9556.
Definition dbl_horizontal : N := 9552.
Definition dbl_top_right : N := 9559.
Definition dbl_bottom_left : N := 9562.
Definition dbl_bottom_right : N := 9565.
Definition dbl_vertical : N := 9553.
Definition dbl_tee_right : N := 9568.
Definition dbl_tee_left : N := 9571.
Definition top_left : N := 9484.
Definition horizontal : N := 9472.
Definition top_right : N := 9488.
Definition bottom_left : N := 9492.
Definition bottom_right : N := 9496.
Definition space : N := 32.

Open Scope list_scope.

(** [print_box]: [top_border], [bottom_border] and the line printed for
    one [line] of the message; [color] is the colour code passed in. *)
Definition top_border (color : list N) (width : Z) : text :=
  [Code color; Glyph dbl_top_left] ++ times dbl_horizontal (width - 2)
    ++ [Glyph dbl_top_right; Style_RESET_ALL].

Definition bottom_border (color : list N) (width : Z) : text :=
  [Code color; Glyph dbl_bottom_left] ++ times dbl_horizontal (width - 2)
    ++ [Glyph dbl_bottom_right; Style_RESET_ALL].

Definition box_row (color : list N) (width : Z) (line : text) : text :=
  let padding := (width - py_len line - 4)%Z in
  [Code color; Glyph dbl_vertical; Style_RESET_ALL; Glyph space; Code color]
    ++ line ++ times space padding
    ++ [Code color; Glyph space; Glyph dbl_vertical; Style_RESET_ALL].

(** What [print_box] prints, one element per [print]. *)
Definition print_box (message : text) (color : list N) (width : Z) : list text :=
  top_border color width
    :: map (box_row color width) (split_lines message)
    ++ [bottom_border color width].

(** What [print_section] prints. *)
Definition print_section (title : text) (color : list N) (width : Z) : text :=
  let title_str := [Glyph space] ++ title ++ [Glyph space] in
  let padding := ((width - py_len title_str - 2) / 2)%Z in
  let line := times horizontal padding ++ title_str
                ++ times horizontal (width - padding - py_len title_str - 2) in
  [Code color; Glyph top_left] ++ line ++ [Glyph top_right; Style_RESET_ALL].

(** What [print_section_end] prints. *)
Definition print_section_end (color : list N) (width : Z) : text :=
  [Code color; Glyph bottom_left] ++ times horizontal (width - 2)
    ++ [Glyph bottom_right; Style_RESET_ALL].

(** [print_answer]: the top border (after the newline its [print]
    starts with), the title line, the separator, the line printed for
    one wrapped [line], the bottom border. *)
Definition answer_top (width : Z) : text :=
  [Fore_GREEN; Glyph dbl_top_left] ++ times dbl_horizontal (width - 2)
    ++ [Glyph dbl_top_right; Style_RESET_ALL].

Definition answer_title (width : Z) : text :=
  [Fore_GREEN; Glyph dbl_vertical; Style_RESET_ALL; Glyph space; Fore_WHITE; Style_BRIGHT]
    ++ lit "ASSISTANT RESPONSE" ++ times space (width - 22)
    ++ [Fore_GREEN; Glyph dbl_vertical; Style_RESET_ALL].

Definition answer_separator (width : Z) : text :=
  [Fore_GREEN; Glyph dbl_tee_right] ++ times dbl_horizontal (width - 2)
    ++ [Glyph dbl_tee_left; Style_RESET_ALL].

Definition answer_row (width : Z) (line : text) : text :=
  let padding := (width - py_len line - 4)%Z in
  [Fore_GREEN; Glyph dbl_vertical; Style_RESET_ALL; Glyph space; Fore_CYAN]
    ++ line ++ times space padding
    ++ [Fore_GREEN; Glyph space; Glyph dbl_vertical; Style_RESET_ALL].

Definition answer_bottom (width : Z) : text :=
  [Fore_GREEN; Glyph dbl_bottom_left] ++ times dbl_horizontal (width - 2)
    ++ [Glyph dbl_bottom_right; Style_RESET_ALL].

(** What [print_answer] prints, one element per [print]; [blank line]
    stands for [not line.strip()] and [wrap] for [textwrap.wrap]. *)
Definition print_answer (blank : text -> bool) (wrap : text -> Z -> list text)
  (answer : text) (width : Z) : list text :=
  let wrapped_lines :=
    flat_map (fun line => if blank line then [[]] else wrap line (width - 4)%Z)
             (split_lines answer) in
  [Glyph 10%N :: answer_top width; answer_title width; answer_separator width]
    ++ map (answer_row width) wrapped_lines
    ++ [answer_bottom width ++ [Glyph 10%N]].

Open Scope string_scope.

(** ** Scripted collaborators

    Small environments to run the graph on.  The world is the number of
    verdicts the grader has given so far. *)

Definition last_text (msgs : list Message) : string :=
  match rev msgs with
  | [] => ""
  | m :: _ => content m
  end.

(** The one passage the scripted index holds for a query. *)
Definition passage (query : string) : Document :=
  mkDocument ("Notes on " ++ query)
             [("source_file", VStr (query ++ ".pdf")); ("page", VInt 3)].

(** The index finds nothing for "void" and one passage otherwise. *)
Definition scripted_retriever (query : string) (w : nat) : result (list Document) * nat :=
  if String.eqb query "void" then (Ok [], w) else (Ok [passage query], w).

(** A router that greets back and looks every other turn up. *)
Definition lookup_router (msgs : list Message) (w : nat)
  : result (string * list string) * nat :=
  if String.eqb (last_text msgs) "hello" then (Ok ("Hello! How can I help?", []), w)
  else (Ok ("", [last_text msgs]), w).

(** A router that asks for the same retrieval whatever the turns. *)
Definition fixed_router (msgs : list Message) (w : nat)
  : result (string * list string) * nat :=
  (Ok ("", ["osmosis"]), w).

Definition scripted_grader (verdicts : nat -> result string) (prompt : string) (w : nat)
  : result string * nat :=
  (verdicts w, S w).

(** The model rephrases on a rewrite prompt and answers otherwise. *)
Definition scripted_llm (prompt : string) (w : nat) : result string * nat :=
  if prefix "You are helping" prompt then (Ok "rephrased", w) else (Ok "answer", w).

Definition exn_text (e : exn) : string :=
  match e with
  | ValueError => "cannot convert float NaN to integer"
  | OverflowError => "cannot convert float infinity to integer"
  | IndexError => "list index out of range"
  | ValidationError => "1 validation error for SourceDocument"
  | GraphRecursionError => "Recursion limit reached without hitting a stop condition."
  | Failure what => what
  end.

Definition float_text (f : spec_float) : string :=
  match f with
  | S754_nan => "nan"
  | S754_infinity false => "inf"
  | S754_infinity true => "-inf"
  | _ => "0.0"
  end.

(** The threads of the tool node step in turn, eight rounds long;
    [in_order] lets each thread run to its end before the next starts. *)
Definition round_robin (calls : list string) (w : nat) : list nat :=
  concat (repeat (seq 0 (List.length calls)) 8).

Definition in_order (calls : list string) (w : nat) : list nat := [].

Definition scripted
  (router : list Message -> nat -> result (string * list string) * nat)
  (verdicts : nat -> result string) : Env :=
  mkEnv nat scripted_retriever router (scripted_grader verdicts) scripted_llm
        (fun _ => None) round_robin exn_text float_text.

(** Every verdict is irrelevant and the router always retrieves. *)
Definition stubborn : Env := scripted fixed_router (fun _ => Ok "no").

(** The grader answers outside its two words. *)
Definition vague : Env := scripted lookup_router (fun _ => Ok "maybe").

(** Every verdict is relevant. *)
Definition agreeable : Env := scripted lookup_router (fun _ => Ok "yes").

(** The first verdict is irrelevant, the later ones relevant. *)
Definition second_try : Env :=
  scripted lookup_router (fun n => match n with O => Ok "no" | S _ => Ok "yes" end).

(** A router that looks the question up once and replies by itself to
    every later turn. *)
Definition once_router (msgs : list Message) (w : nat)
  : result (string * list string) * nat :=
  match msgs with
  | [m] => (Ok ("", [content m]), w)
  | _ => (Ok ("I could not find it.", []), w)
  end.

(** One irrelevant retrieval, then a direct reply. *)
Definition gives_up : Env := scripted once_router (fun _ => Ok "no").

(** An index whose second document has a NaN page entry. *)
Definition flawed_retriever (query : string) (w : nat) : result (list Document) * nat :=
  (Ok [passage query;
       mkDocument "text" [("source_file", VStr "a.pdf"); ("page", VFloat S754_nan)];
       passage "later"], w).

Definition flawed : Env :=
  mkEnv nat flawed_retriever lookup_router (scripted_grader (fun _ => Ok "yes"))
        scripted_llm (fun _ => None) round_robin exn_text float_text.






(** A router that asks for two retrievals in one reply, then answers. *)
Definition pair_router (msgs : list Message) (w : nat)
  : result (string * list string) * nat :=
  match msgs with
  | [m] => (Ok ("", ["alpha"; "beta"]), w)
  | _ => (Ok ("done", []), w)
  end.

Definition two_calls (schedule : list string -> nat -> list nat) : Env :=
  mkEnv nat scripted_retriever pair_router (scripted_grader (fun _ => Ok "yes"))
        scripted_llm (fun _ => None) schedule exn_text float_text.


(** The tool's text for the scripted passage of a query. *)
Definition passage_text (query : string) : string :=
  "[Source: " ++ query ++ ".pdf, Page: 3]" ++ newline ++ "Notes on " ++ query.

Definition passage_record (query : string) : SourceRecord :=
  mkSourceRecord (VStr (query ++ ".pdf")) 3 ("Notes on " ++ query).

(** A passage of 210 characters. *)
Definition long_text : string :=
  String.concat "" (repeat "0123456789" 21).

Definition alpha_request : QuestionRequest := mkQuestionRequest "alpha" (Some true).
Definition beta_request : QuestionRequest := mkQuestionRequest "beta" (Some true).
Definition osmosis_request : QuestionRequest := mkQuestionRequest "osmosis" (Some true).
Definition hello_request : QuestionRequest := mkQuestionRequest "hello" (Some true).

(** The turns when the first retrieval on "osmosis" has returned. *)
Definition osmosis_retrieved : list Message :=
  [HumanMessage "osmosis"; AIMessage "" ["osmosis"]; ToolMessage (passage_text "osmosis")].

(** A document whose page entry is the float 2.5, and one whose page
    entry is NaN. *)
Definition half_page_doc : Document :=
  mkDocument "text" [("source_file", VStr "a.pdf"); ("page", VFloat (S754_finite false 5 (-1)))].

Definition nan_page_doc : Document :=
  mkDocument "text" [("source_file", VStr "a.pdf"); ("page", VFloat S754_nan)].

Definition long_doc : Document := mkDocument long_text [].

(** The turns a node of the stubborn run starts from. *)
Definition in_cycle (n : Node) (msgs : list Message) : Prop :=
  match n with
  | at_generate_query_or_respond | at_rewrite_question =>
      exists m0 rest, msgs = m0 :: rest
  | at_retrieve =>
      exists m0 rest, msgs = (m0 :: rest ++ [AIMessage "" ["osmosis"]])%list
  | at_generate_answer | at_END => False
  end.

Section Graph.

Variable E : Env.

(** The process: the collaborators' world, the module global
    [retrieved_sources], the ghost log. *)
Record Sys : Type := mkSys {
  world : World E;
  retrieved_sources : list SourceRecord;
  log : list event
}.

(** Computations that read and write the process and may raise.  The
    process keeps what was written before an exception. *)
Definition M (A : Type) : Type := Sys -> result A * Sys.

Definition ret {A : Type} (a : A) : M A := fun s => (Ok a, s).

Definition raise {A : Type} (e : exn) : M A := fun s => (Raise e, s).

Definition bind {A B : Type} (m : M A) (k : A -> M B) : M B :=
  fun s => match m s with
           | (Ok a, s') => k a s'
           | (Raise e, s') => (Raise e, s')
           end.

Notation "x <- m ;; k" := (bind m (fun x => k))
  (at level 61, m at next level, right associativity).
Notation "m ;;; k" := (bind m (fun _ => k))
  (at level 61, right associativity).

Definition lift {A : Type} (r : result A) : M A := fun s => (r, s).

(** Ghost: one more event in the log.  The source has no counterpart;
    nothing reads the log back. *)
Definition emit (ev : event) : M unit :=
  fun s => (Ok tt, mkSys (world s) (retrieved_sources s) (ev :: log s)).

Definition set_sources (l : list SourceRecord) : M unit :=
  fun s => (Ok tt, mkSys (world s) l (log s)).

Definition append_source (r : SourceRecord) : M unit :=
  fun s => (Ok tt, mkSys (world s) (retrieved_sources s ++ [r]) (log s)).

Definition get_sources : M (list SourceRecord) :=
  fun s => (Ok (retrieved_sources s), s).

(** A collaborator's call, run in the process's world. *)
Definition call {A B : Type} (f : A -> World E -> result B * World E) (a : A) : M B :=
  fun s => let (r, w) := f a (world s) in (r, mkSys w (retrieved_sources s) (log s)).

(** [str(v)] as an f-string field prints it. *)
Definition str (v : value) : string :=
  match v with
  | VNone => "None"
  | VBool b => if b then "True" else "False"
  | VInt z => NilZero.string_of_int (Z.to_int z)
  | VFloat f => float_str E f
  | VStr s => s
  | VOther text => text
  end.

(** ** [retrieve_from_books] *)

(** One round of the loop over [docs]: the source record is appended,
    the formatted passage is returned. *)
Definition retrieve_doc (doc : Document) : M string :=
  let source := doc_source doc in
  let page := doc_page doc in
  r <- lift (source_record doc) ;;
  append_source r ;;;
  ret ("[Source: " ++ str source ++ ", Page: " ++ str page ++ "]" ++ newline ++ page_content doc).

Fixpoint retrieve_docs (docs : list Document) : M (list string) :=
  match docs with
  | [] => ret []
  | doc :: rest =>
      line <- retrieve_doc doc ;;
      lines <- retrieve_docs rest ;;
      ret (line :: lines)
  end.

Definition retrieve_from_books (query : string) : M string :=
  set_sources [] ;;;
  emit (EvRetrieve query) ;;;
  docs <- call (retriever_invoke E) query ;;
  emit (EvRetrieved docs) ;;;
  match docs with
  | [] => ret NO_RESULTS
  | _ =>
      results <- retrieve_docs docs ;;
      ret (String.concat SEPARATOR results)
  end.

(** ** Graph components *)

(** [state["messages"][0].content] *)
Definition first_content (msgs : list Message) : M string :=
  match msgs with
  | [] => raise IndexError
  | m :: _ => ret (content m)
  end.

(** [state["messages"][-1].content] *)
Definition last_content (msgs : list Message) : M string :=
  match rev msgs with
  | [] => raise IndexError
  | m :: _ => ret (content m)
  end.

(** The conditional edge after [retrieve]. *)
Definition grade_documents (msgs : list Message) : M Node :=
  question <- first_content msgs ;;
  context <- last_content msgs ;;
  score <- call (grader_llm E) (GRADE_PROMPT question context) ;;
  emit (EvGrade question context score) ;;;
  if String.eqb score "yes" then ret at_generate_answer else ret at_rewrite_question.

Definition generate_query_or_respond (msgs : list Message) : M (list Message) :=
  response <- call (route_llm E) msgs ;;
  ret [AIMessage (fst response) (snd response)].

Definition rewrite_question (msgs : list Message) : M (list Message) :=
  question <- first_content msgs ;;
  response <- call (llm_invoke E) (REWRITE_PROMPT question) ;;
  emit (EvRewrite question response) ;;;
  ret [HumanMessage response].

Definition generate_answer (msgs : list Message) : M (list Message) :=
  question <- first_content msgs ;;
  context <- last_content msgs ;;
  response <- call (llm_invoke E) (GENERATE_PROMPT question context) ;;
  emit (EvGenerate question context response) ;;;
  ret [AIMessage response []].

(** ** LangGraph's prebuilt parts *)

(** [tools_condition]: to the tools when the last turn asks for one. *)
Definition tools_condition (msgs : list Message) : M Node :=
  match rev msgs with
  | [] => raise ValueError
  | m :: _ => match tool_calls m with
              | [] => ret at_END
              | _ :: _ => ret at_retrieve
              end
  end.

(** *** [ToolNode([retriever_tool])]

    [ToolNode] hands the tool calls of the reply to a pool of threads,
    one call per thread, and returns their results in the order of the
    calls.  Every thread runs [retrieve_from_books] on the one module
    global. *)

(** Where a thread stands in [retrieve_from_books(query)]: before
    [retrieved_sources = []], before [retriever.invoke(query)], in the
    loop with [docs] still to go through and the [results] so far (at
    the final [join] when [docs] is empty), or at its end, with the text
    returned or the exception raised. *)
Inductive Thread : Type :=
| th_reset (query : string)
| th_search (query : string)
| th_loop (docs : list Document) (results : list string)
| th_return (r : result string).

(** [m] with its exception caught. *)
Definition attempt {A : Type} (m : M A) : M (result A) :=
  fun s => let (r, s') := m s in (Ok r, s').

(** The thread's next statement.  A round of the loop is one step: the
    global is read and the record appended at once (a reset by another
    thread between the two loses the record, as one right after does). *)
Definition thread_step (t : Thread) : M Thread :=
  match t with
  | th_reset query => set_sources [] ;;; ret (th_search query)
  | th_search query =>
      emit (EvRetrieve query) ;;;
      found <- attempt (call (retriever_invoke E) query) ;;
      match found with
      | Ok docs =>
          emit (EvRetrieved docs) ;;;
          ret (match docs with
               | [] => th_return (Ok NO_RESULTS)
               | _ => th_loop docs []
               end)
      | Raise e => ret (th_return (Raise e))
      end
  | th_loop [] results => ret (th_return (Ok (String.concat SEPARATOR results)))
  | th_loop (doc :: rest) results =>
      line <- attempt (retrieve_doc doc) ;;
      match line with
      | Ok l => ret (th_loop rest (results ++ [l])%list)
      | Raise e => ret (th_return (Raise e))
      end
  | th_return _ => ret t
  end.

(** [n] steps of a thread that no other interrupts. *)
Fixpoint iterate (n : nat) (t : Thread) : M Thread :=
  match n with
  | O => ret t
  | S k => t' <- thread_step t ;; iterate k t'
  end.

(** Thread [i] of the pool makes its next step. *)
Fixpoint pool_step (i : nat) (pool : list Thread) : M (list Thread) :=
  match pool, i with
  | [], _ => ret []
  | t :: rest, O => t' <- thread_step t ;; ret (t' :: rest)
  | t :: rest, S j => rest' <- pool_step j rest ;; ret (t :: rest')
  end.

Fixpoint run_schedule (schedule : list nat) (pool : list Thread) : M (list Thread) :=
  match schedule with
  | [] => ret pool
  | i :: later => pool' <- pool_step i pool ;; run_schedule later pool'
  end.

(** The rest of [retrieve_from_books] from where a thread stands, run
    without interruption. *)
Fixpoint finish_loop (docs : list Document) (results : list string) : M string :=
  match docs with
  | [] => ret (String.concat SEPARATOR results)
  | doc :: rest => line <- retrieve_doc doc ;; finish_loop rest (results ++ [line])%list
  end.

Definition finish_search (query : string) : M string :=
  emit (EvRetrieve query) ;;;
  docs <- call (retriever_invoke E) query ;;
  emit (EvRetrieved docs) ;;;
  match docs with
  | [] => ret NO_RESULTS
  | _ => finish_loop docs []
  end.

Definition finish (t : Thread) : M string :=
  match t with
  | th_reset query => set_sources [] ;;; finish_search query
  | th_search query => finish_search query
  | th_loop docs results => finish_loop docs results
  | th_return r => lift r
  end.

Definition started (t : Thread) : bool :=
  match t with
  | th_reset _ => false
  | _ => true
  end.

(** When a call's exception is let through, the pool is shut down: the
    calls already running run on to their end, those not yet started
    are cancelled. *)
Fixpoint drain (pool : list Thread) : M unit :=
  match pool with
  | [] => ret tt
  | t :: rest =>
      (if started t then attempt (finish t) ;;; ret tt else ret tt) ;;;
      drain rest
  end.

(** The results are awaited in the order of the calls: the tool's
    text, or the text [handle_tool_errors] makes of its exception; an
    exception it lets through is the node's. *)
Fixpoint collect (pool : list Thread) : M (list string) :=
  match pool with
  | [] => ret []
  | t :: rest =>
      outcome <- attempt (finish t) ;;
      match outcome with
      | Ok text => texts <- collect rest ;; ret (text :: texts)
      | Raise e =>
          match handle_tool_errors E e with
          | Some text => texts <- collect rest ;; ret (text :: texts)
          | None => drain rest ;;; raise e
          end
      end
  end.

(** The tool-result turns, one per call. *)
Fixpoint tool_messages (texts : list string) : M (list Message) :=
  match texts with
  | [] => ret []
  | text :: rest =>
      emit (EvToolMessage text) ;;;
      ms <- tool_messages rest ;;
      ret (ToolMessage text :: ms)
  end.

(** The calls of one reply: the threads take their steps as the
    scheduler has it, then the results are awaited. *)
Definition run_calls (calls : list string) : M (list string) :=
  schedule <- (fun s => (Ok (tool_schedule E calls (world s)), s)) ;;
  pool <- run_schedule schedule (map th_reset calls) ;;
  collect pool.

Definition run_tools (calls : list string) : M (list Message) :=
  texts <- run_calls calls ;;
  tool_messages texts.

(** A reply with one tool call: the one thread runs the tool from its
    first statement to its last. *)
Definition run_tool (query : string) : M Message :=
  fun s => match retrieve_from_books query s with
           | (Ok text, s') => (emit (EvToolMessage text) ;;; ret (ToolMessage text)) s'
           | (Raise e, s') =>
               match handle_tool_errors E e with
               | Some text => (emit (EvToolMessage text) ;;; ret (ToolMessage text)) s'
               | None => (Raise e, s')
               end
           end.

(** [ToolNode]: the calls of the last turn. *)
Definition ToolNode (msgs : list Message) : M (list Message) :=
  match rev msgs with
  | [] => raise ValueError
  | m :: _ => match role m with
              | ai => run_tools (tool_calls m)
              | _ => raise ValueError
              end
  end.

(** A compiled [StateGraph(MessagesState)]: what each node returns as
    its update of [messages], and the edge taken from it on the
    updated state. *)
Record Graph : Type := mkGraph {
  entry : Node;
  node_fn : Node -> list Message -> M (list Message);
  edge : Node -> list Message -> M Node
}.

Definition build_graph : Graph :=
  mkGraph
    at_generate_query_or_respond
    (fun n =>
       match n with
       | at_generate_query_or_respond => generate_query_or_respond
       | at_retrieve => ToolNode
       | at_rewrite_question => rewrite_question
       | at_generate_answer => generate_answer
       | at_END => fun _ => ret []
       end)
    (fun n =>
       match n with
       | at_generate_query_or_respond => tools_condition
       | at_retrieve => grade_documents
       | at_generate_answer => fun _ => ret at_END
       | at_rewrite_question => fun _ => ret at_generate_query_or_respond
       | at_END => fun _ => ret at_END
       end).

(** One super-step: the node runs, its update is appended to
    [messages] (the [add_messages] reducer on turns with fresh ids),
    the outgoing edge is evaluated on the new state. *)
Definition step (g : Graph) (n : Node) (msgs : list Message) : M (Node * list Message) :=
  emit (EvNode n) ;;;
  update <- node_fn g n msgs ;;
  next <- edge g n (msgs ++ update)%list ;;
  ret (next, (msgs ++ update)%list).

(** The run from node [n]; [limit] is what is left of the runtime's
    [recursion_limit].  The runtime checks it before it looks for the
    next node to run, also when there is none left: a run of [k]
    super-steps needs a limit of [k + 1], and with less it raises. *)
Fixpoint run (g : Graph) (limit : nat) (n : Node) (msgs : list Message) {struct limit}
  : M (list Message) :=
  match limit with
  | O => raise GraphRecursionError
  | S k =>
      match n with
      | at_END => ret msgs
      | _ => nm <- step g n msgs ;; run g k (fst nm) (snd nm)
      end
  end.

(** [graph.invoke({"messages": [{"role": "user", "content": q}]})] *)
Definition invoke (g : Graph) (limit : nat) (q : string) : M (list Message) :=
  run g limit (entry g) [HumanMessage q].

(** ** The [/api/ask] handler *)

Definition truthy (b : option bool) : bool :=
  match b with
  | Some true => true
  | _ => false
  end.

Fixpoint source_documents (l : list SourceRecord) : result (list SourceDocument) :=
  match l with
  | [] => Ok []
  | r :: rest =>
      match SourceDocument_of r with
      | Raise e => Raise e
      | Ok d => match source_documents rest with
                | Raise e => Raise e
                | Ok ds => Ok (d :: ds)
                end
      end
  end.

Definition FAILED_TO_GENERATE : HTTPException :=
  mkHTTPException 500 "Failed to generate a response. Please try rephrasing your question.".

(** What follows [graph.invoke] inside the [try]: the answer is the
    last turn's content, the sources are read from the global. *)
Definition assemble (request : QuestionRequest) (result : list Message)
  : M (HTTPException + QuestionResponse) :=
  final_response <- last_content result ;;
  if String.eqb final_response "" then ret (inl FAILED_TO_GENERATE)
  else
    sources <- get_sources ;;
    match truthy (include_sources request), sources with
    | true, _ :: _ =>
        docs <- lift (source_documents sources) ;;
        ret (inr (mkQuestionResponse (question request) final_response (Some docs)))
    | _, _ => ret (inr (mkQuestionResponse (question request) final_response None))
    end.

(** The body of the [try]. *)
Definition ask_body (limit : nat) (request : QuestionRequest)
  : M (HTTPException + QuestionResponse) :=
  set_sources [] ;;;
  result <- invoke build_graph limit (question request) ;;
  assemble request result.

(** [except HTTPException: raise] and [except Exception as e]. *)
Definition surface {A : Type} (r : result (HTTPException + A)) : HTTPException + A :=
  match r with
  | Ok out => out
  | Raise e => inl (mkHTTPException 500 ("An error occurred: " ++ exn_str E e))
  end.

Definition ask_question (limit : nat) (request : QuestionRequest)
  : Sys -> (HTTPException + QuestionResponse) * Sys :=
  fun s => let (r, s') := ask_body limit request s in (surface r, s').

(** The state a graph run has reached after at most [k] super-steps
    (no step budget: the prefix of every run). *)
Fixpoint steps (g : Graph) (k : nat) (n : Node) (msgs : list Message) {struct k}
  : M (Node * list Message) :=
  match k with
  | O => ret (n, msgs)
  | S k' =>
      match n with
      | at_END => ret (n, msgs)
      | _ => nm <- step g n msgs ;; steps g k' (fst nm) (snd nm)
      end
  end.

(** ** Two handlers on one process *)

(** Where a handler stands between the statements of [ask_question]. *)
Inductive Handler : Type :=
| before_reset (request : QuestionRequest)
| before_invoke (request : QuestionRequest)
| before_assemble (request : QuestionRequest) (result : list Message)
| returned (out : HTTPException + QuestionResponse).

Definition raised {A : Type} (e : exn) : HTTPException + A := surface (Raise e).

(** The handler's next statement. *)
Definition handler_step (limit : nat) (h : Handler) (s : Sys) : Handler * Sys :=
  match h with
  | before_reset request =>
      match set_sources [] s with
      | (Ok _, s') => (before_invoke request, s')
      | (Raise e, s') => (returned (raised e), s')
      end
  | before_invoke request =>
      match invoke build_graph limit (question request) s with
      | (Ok result, s') => (before_assemble request result, s')
      | (Raise e, s') => (returned (raised e), s')
      end
  | before_assemble request result =>
      let (r, s') := assemble request result s in (returned (surface r), s')
  | returned out => (h, s)
  end.

(** Two handlers sharing the process; the schedule says which one runs
    its next statement ([true]: the first). *)
Fixpoint interleave (limit : nat) (schedule : list bool) (a b : Handler) (s : Sys)
  : Handler * Handler * Sys :=
  match schedule with
  | [] => (a, b, s)
  | true :: rest => let (a', s') := handler_step limit a s in interleave limit rest a' b s'
  | false :: rest => let (b', s') := handler_step limit b s in interleave limit rest a b' s'
  end.

(** ** Reading the ghost log *)

Definition Node_eqb (a b : Node) : bool :=
  match a, b with
  | at_generate_query_or_respond, at_generate_query_or_respond
  | at_retrieve, at_retrieve
  | at_rewrite_question, at_rewrite_question
  | at_generate_answer, at_generate_answer
  | at_END, at_END => true
  | _, _ => false
  end.

(** How many times node [n] ran. *)
Fixpoint runs_of (n : Node) (lg : list event) : nat :=
  match lg with
  | [] => 0
  | EvNode n' :: older => (if Node_eqb n n' then 1 else 0) + runs_of n older
  | _ :: older => runs_of n older
  end.

(** How many times the retriever was called. *)
Fixpoint retrievals (lg : list event) : nat :=
  match lg with
  | [] => 0
  | EvRetrieve _ :: older => S (retrievals older)
  | _ :: older => retrievals older
  end.

(** How many verdicts were irrelevant: a score other than "yes". *)
Fixpoint irrelevant_verdicts (lg : list event) : nat :=
  match lg with
  | [] => 0
  | EvGrade _ _ score :: older =>
      (if String.eqb score "yes" then 0 else 1) + irrelevant_verdicts older
  | _ :: older => irrelevant_verdicts older
  end.

(** What each event of a request on question [q] must sit on: the
    events right before it (older, so next in the list). *)
Definition follows (q : string) (ev : event) (older : list event) : Prop :=
  match ev with
  | EvNode at_retrieve =>
      exists rest, older = EvNode at_generate_query_or_respond :: rest
  | EvGrade q' c _ =>
      q' = q /\ exists rest, older = EvToolMessage c :: rest
  | EvNode at_rewrite_question =>
      exists c score rest, older = EvGrade q c score :: rest /\ score <> "yes"
  | EvRewrite q' _ =>
      q' = q /\ exists rest, older = EvNode at_rewrite_question :: rest
  | EvNode at_generate_answer =>
      exists c rest, older = EvGrade q c "yes" :: EvToolMessage c :: rest
  | EvGenerate q' c _ =>
      q' = q /\
      exists rest, older = EvNode at_generate_answer :: EvGrade q c "yes"
                             :: EvToolMessage c :: rest
  | _ => True
  end.

Fixpoint log_wf (q : string) (lg : list event) : Prop :=
  match lg with
  | [] => True
  | ev :: older => follows q ev older /\ log_wf q older
  end.

(** What the log and the turns look like when node [n] is about to run. *)
Definition pending (q : string) (n : Node) (msgs : list Message) (lg : list event) : Prop :=
  match n with
  | at_generate_query_or_respond | at_END => True
  | at_retrieve =>
      (exists rest, lg = EvNode at_generate_query_or_respond :: rest) /\
      (exists pre c call calls, msgs = (pre ++ [AIMessage c (call :: calls)])%list)
  | at_rewrite_question =>
      exists c score rest, lg = EvGrade q c score :: rest /\ score <> "yes"
  | at_generate_answer =>
      exists pre m rest,
        msgs = (pre ++ [m])%list /\
        lg = EvGrade q (content m) "yes" :: EvToolMessage (content m) :: rest
  end.

(** Runs of the retrieve node and irrelevant verdicts against rewrite
    attempts when [n] is about to run. *)
Definition balance (n : Node) (lg : list event) : Prop :=
  match n with
  | at_generate_query_or_respond | at_retrieve =>
      runs_of at_retrieve lg = runs_of at_rewrite_question lg /\
      runs_of at_generate_answer lg = 0 /\
      irrelevant_verdicts lg = runs_of at_rewrite_question lg
  | at_rewrite_question =>
      runs_of at_retrieve lg = runs_of at_rewrite_question lg + 1 /\
      runs_of at_generate_answer lg = 0 /\
      irrelevant_verdicts lg = runs_of at_rewrite_question lg + 1
  | at_generate_answer =>
      runs_of at_retrieve lg = runs_of at_rewrite_question lg + 1 /\
      runs_of at_generate_answer lg = 0 /\
      irrelevant_verdicts lg = runs_of at_rewrite_question lg
  | at_END =>
      irrelevant_verdicts lg = runs_of at_rewrite_question lg /\
      ((runs_of at_retrieve lg = runs_of at_rewrite_question lg /\
        runs_of at_generate_answer lg = 0) \/
       (runs_of at_retrieve lg = runs_of at_rewrite_question lg + 1 /\
        runs_of at_generate_answer lg = 1))
  end.

(** The invariant of a run on question [q]. *)
Definition Inv (q : string) (n : Node) (msgs : list Message) (lg : list event) : Prop :=
  (exists rest, msgs = HumanMessage q :: rest) /\
  log_wf q lg /\ pending q n msgs lg /\ balance n lg.

(** What still holds of the log when the run was aborted. *)
Definition Aborted (q : string) (lg : list event) : Prop :=
  log_wf q lg /\
  runs_of at_retrieve lg <= runs_of at_rewrite_question lg + 1 /\
  runs_of at_generate_answer lg <= 1 /\
  runs_of at_rewrite_question lg <= irrelevant_verdicts lg
    <= runs_of at_rewrite_question lg + 1.

(** Events of the tool node. *)
Definition tool_event (ev : event) : Prop :=
  match ev with
  | EvRetrieve _ | EvRetrieved _ | EvToolMessage _ => True
  | _ => False
  end.

(** The float values [int] accepts: every value but a NaN or an
    infinite float. *)
Definition finite_value (v : value) : bool :=
  match v with
  | VFloat S754_nan | VFloat (S754_infinity _) => false
  | _ => true
  end.

(** The integer a page value stands for: itself, 0 or 1 for a boolean,
    the float cut toward zero, and 0 for anything that is not a number. *)
Definition page_number (v : value) : Z :=
  match v with
  | VInt z => z
  | VBool b => if b then 1%Z else 0%Z
  | VFloat (S754_finite s m e) =>
      Z.quot ((if s then Zneg m else Zpos m) * 2 ^ Z.max e 0) (2 ^ Z.max (- e) 0)
  | _ => 0%Z
  end.

(** ** More of the tool, and the tool of [rag.py] *)

(** One passage as the tool formats it:
    [f"[Source: {source}, Page: {page}]\n{doc.page_content}"]. *)
Definition passage_line (doc : Document) : string :=
  "[Source: " ++ str (doc_source doc) ++ ", Page: " ++ str (doc_page doc) ++ "]"
    ++ newline ++ page_content doc.

(** [retrieve_from_books] of [rag.py]: the same search and the same
    text, with no list of sources (its console output is left out). *)
Definition rag_retrieve_from_books (query : string) : M string :=
  emit (EvRetrieve query) ;;;
  docs <- call (retriever_invoke E) query ;;
  emit (EvRetrieved docs) ;;;
  match docs with
  | [] => ret NO_RESULTS
  | _ => ret (String.concat SEPARATOR (map passage_line docs))
  end.

(** One record per document, in the documents' order. *)
Definition records_of (docs : list Document) (records : list SourceRecord) : Prop :=
  Forall2 (fun doc r => source_record doc = Ok r) docs records.

(** The process when node [n] has started: the node is in the log. *)
Definition entering (n : Node) (s : Sys) : Sys :=
  mkSys (world s) (retrieved_sources s) (EvNode n :: log s).

(** The turns a node is entered with: the tool node after a reply that
    asks for a tool, the generator after a tool-result turn. *)
Definition ready (n : Node) (msgs : list Message) : Prop :=
  match n with
  | at_retrieve =>
      exists pre c call calls, msgs = (pre ++ [AIMessage c (call :: calls)])%list
  | at_generate_answer =>
      exists pre context, msgs = (pre ++ [ToolMessage context])%list
  | _ => True
  end.

(** What a finished run leaves: the turns it started from, more turns,
    and a last assistant turn with no tool call, which is the router's
    direct reply to the turns before it, or the generator's reply to
    the first turn and to the tool-result turn right before it. *)
Definition finished (m0 : Message) (rest msgs' : list Message) (s' : Sys) : Prop :=
  exists mid c,
    msgs' = (m0 :: rest ++ mid ++ [AIMessage c []])%list /\
    ((exists w, route_llm E (m0 :: rest ++ mid)%list w = (Ok (c, []), world s')) \/
     (exists w pre context,
        (m0 :: rest ++ mid)%list = (pre ++ [ToolMessage context])%list /\
        llm_invoke E (GENERATE_PROMPT (content m0) context) w = (Ok c, world s'))).


(** A process about to serve a request: nothing logged yet. *)
Definition fresh (w : World E) (sources : list SourceRecord) : Sys := mkSys w sources [].

(** The process as [ask_question]'s first statement leaves it. *)
Definition cleared (s : Sys) : Sys := mkSys (world s) [] (log s).

(** Every record in the global was made from a document that a
    retrieval call returned since the log was [base]. *)
Definition provenance (base : list event) (s : Sys) : Prop :=
  exists added,
    log s = (added ++ base)%list /\
    forall r, In r (retrieved_sources s) ->
      exists docs doc,
        In (EvRetrieved docs) added /\ In doc docs /\ source_record doc = Ok r.

(** The documents a thread still has to go through are among those a
    retrieval call returned since the log was [base]. *)
Definition thread_ok (base : list event) (t : Thread) (lg : list event) : Prop :=
  match t with
  | th_loop docs _ =>
      exists added retrieved,
        lg = (added ++ base)%list /\ In (EvRetrieved retrieved) added /\
        incl docs retrieved
  | _ => True
  end.

(** A computation that leaves the global alone and only adds to the log. *)
Definition frame {A : Type} (m : M A) : Prop :=
  forall s,
    retrieved_sources (snd (m s)) = retrieved_sources s /\
    exists added, log (snd (m s)) = (added ++ log s)%list.

Definition preserves {A : Type} (base : list event) (m : M A) : Prop :=
  forall s, provenance base s -> provenance base (snd (m s)).

(** A computation in which the retriever is called at most [r] times
    and the retrieve node does not start. *)
Definition adds {A : Type} (r : nat) (m : M A) : Prop :=
  forall s,
    exists added,
      log (snd (m s)) = (added ++ log s)%list /\
      retrievals added <= r /\ runs_of at_retrieve added = 0.

(** The tool node is entered after a reply with one tool call. *)
Definition single (n : Node) (msgs : list Message) : Prop :=
  n = at_retrieve -> exists pre c query, msgs = (pre ++ [AIMessage c [query]])%list.

(** * Properties *)

(** ** Strings and numbers *)

Lemma slice_to_split (n : nat) : forall s : string,
  n <= String.length s ->
  exists rest, s = slice_to n s ++ rest /\ String.length (slice_to n s) = n.
Proof.
  unfold slice_to.
  induction n as [|n IH]; intros s Hlen.
  - exists s. destruct s; split; reflexivity.
  - destruct s as [|c s]; simpl in Hlen; [lia|].
    destruct (IH s) as [rest [Hs Hl]]; [lia|].
    exists rest. simpl. split; [f_equal; exact Hs | f_equal; exact Hl].
Qed.

Lemma prefix_append (a b : string) : prefix a (a ++ b) = true.
Proof.
  induction a as [|c a IH]; simpl.
  - destruct b; reflexivity.
  - destruct (ascii_dec c c) as [_|Hne]; [exact IH | congruence].
Qed.

Lemma int_of_float_finite (s : bool) (m : positive) (e : Z) :
  int_of_float (S754_finite s m e) = Ok (page_number (VFloat (S754_finite s m e))).
Proof.
  unfold int_of_float, page_number. f_equal.
  destruct e as [|p|p].
  - simpl Z.max. rewrite Z.shiftl_0_r. change (2 ^ 0)%Z with 1%Z.
    rewrite Z.mul_1_r, Z.quot_1_r. destruct s; reflexivity.
  - assert (Hmax : Z.max (Zpos p) 0 = Zpos p) by lia.
    assert (Hmin : Z.max (- Zpos p) 0 = 0%Z) by lia.
    rewrite Hmax, Hmin. change (2 ^ 0)%Z with 1%Z. rewrite Z.quot_1_r.
    rewrite Z.shiftl_mul_pow2 by lia. destruct s; [|reflexivity].
    change (Zneg m) with (- Zpos m)%Z. lia.
  - assert (Hmax : Z.max (Zneg p) 0 = 0%Z) by lia.
    assert (Hmin : Z.max (- Zneg p) 0 = Zpos p) by lia.
    rewrite Hmax, Hmin. change (2 ^ 0)%Z with 1%Z. rewrite Z.mul_1_r.
    change (Z.shiftl (Zpos m) (Zneg p)) with (Z.shiftr (Zpos m) (Zpos p)).
    rewrite Z.shiftr_div_pow2 by lia.
    assert (Hpow : (0 < 2 ^ Zpos p)%Z) by (apply Z.pow_pos_nonneg; lia).
    destruct s.
    + change (Zneg m) with (- Zpos m)%Z.
      rewrite Z.quot_opp_l by lia. rewrite Z.quot_div_nonneg by lia. reflexivity.
    + rewrite Z.quot_div_nonneg by lia. reflexivity.
Qed.

Lemma page_of_finite (v : value) :
  finite_value v = true -> page_of v = Ok (page_number v).
Proof.
  destruct v as [| b | z | f | s | text]; try reflexivity.
  destruct f as [sg | sg | | sg m e]; intros Hfin; try discriminate.
  - reflexivity.
  - unfold page_of. simpl. apply int_of_float_finite.
Qed.

(** ** What one super-step does *)

Ltac monad :=
  cbv [bind ret raise lift emit set_sources append_source get_sources call];
  cbn [world retrieved_sources log fst snd].

Lemma last_content_snoc (pre : list Message) (m : Message) (s : Sys) :
  last_content (pre ++ [m]) s = (Ok (content m), s).
Proof. unfold last_content. rewrite rev_unit. reflexivity. Qed.

Lemma last_content_eq (msgs pre : list Message) (m : Message) (s : Sys) :
  msgs = (pre ++ [m])%list -> last_content msgs s = (Ok (content m), s).
Proof. intros ->. apply last_content_snoc. Qed.

Lemma step_route (msgs : list Message) (s : Sys) :
  step build_graph at_generate_query_or_respond msgs s =
  match route_llm E msgs (world s) with
  | (Ok resp, w) =>
      (Ok (match snd resp with [] => at_END | _ :: _ => at_retrieve end,
           (msgs ++ [AIMessage (fst resp) (snd resp)])%list),
       mkSys w (retrieved_sources s) (EvNode at_generate_query_or_respond :: log s))
  | (Raise e, w) =>
      (Raise e, mkSys w (retrieved_sources s) (EvNode at_generate_query_or_respond :: log s))
  end.
Proof.
  unfold step, build_graph, generate_query_or_respond, tools_condition; cbn [node_fn edge].
  monad.
  destruct (route_llm E msgs (world s)) as [[resp | e] w]; [|reflexivity].
  rewrite rev_unit. cbn [tool_calls AIMessage].
  destruct (snd resp); reflexivity.
Qed.

Lemma step_rewrite (m0 : Message) (rest : list Message) (s : Sys) :
  step build_graph at_rewrite_question (m0 :: rest) s =
  match llm_invoke E (REWRITE_PROMPT (content m0)) (world s) with
  | (Ok r, w) =>
      (Ok (at_generate_query_or_respond, (m0 :: rest ++ [HumanMessage r])%list),
       mkSys w (retrieved_sources s)
         (EvRewrite (content m0) r :: EvNode at_rewrite_question :: log s))
  | (Raise e, w) =>
      (Raise e, mkSys w (retrieved_sources s) (EvNode at_rewrite_question :: log s))
  end.
Proof.
  unfold step, build_graph, rewrite_question, first_content; cbn [node_fn edge].
  monad.
  destruct (llm_invoke E (REWRITE_PROMPT (content m0)) (world s)) as [[r | e] w];
    reflexivity.
Qed.

Lemma step_generate (m0 m : Message) (rest pre : list Message) (s : Sys) :
  m0 :: rest = (pre ++ [m])%list ->
  step build_graph at_generate_answer (m0 :: rest) s =
  match llm_invoke E (GENERATE_PROMPT (content m0) (content m)) (world s) with
  | (Ok a, w) =>
      (Ok (at_END, (m0 :: rest ++ [AIMessage a []])%list),
       mkSys w (retrieved_sources s)
         (EvGenerate (content m0) (content m) a :: EvNode at_generate_answer :: log s))
  | (Raise e, w) =>
      (Raise e, mkSys w (retrieved_sources s) (EvNode at_generate_answer :: log s))
  end.
Proof.
  intros Hsnoc.
  unfold step, build_graph, generate_answer, first_content; cbn [node_fn edge].
  cbv [bind emit ret]. rewrite (@last_content_eq _ _ _ _ Hsnoc). monad.
  destruct (llm_invoke E (GENERATE_PROMPT (content m0) (content m)) (world s)) as [[a | e] w];
    reflexivity.
Qed.

(** The grader edge on turns that start with [m0] and end with [m]. *)
Lemma grade_documents_eq (m0 m : Message) (rest pre : list Message) (s : Sys) :
  m0 :: rest = (pre ++ [m])%list ->
  grade_documents (m0 :: rest) s =
  match grader_llm E (GRADE_PROMPT (content m0) (content m)) (world s) with
  | (Ok score, w) =>
      (Ok (if String.eqb score "yes" then at_generate_answer else at_rewrite_question),
       mkSys w (retrieved_sources s) (EvGrade (content m0) (content m) score :: log s))
  | (Raise e, w) => (Raise e, mkSys w (retrieved_sources s) (log s))
  end.
Proof.
  intros Hsnoc.
  unfold grade_documents, first_content.
  cbv [bind ret]. rewrite (@last_content_eq _ _ _ _ Hsnoc). monad.
  destruct (grader_llm E (GRADE_PROMPT (content m0) (content m)) (world s)) as [[score | e] w];
    [|reflexivity].
  destruct (String.eqb score "yes"); reflexivity.
Qed.

Lemma run_END (g : Graph) (limit : nat) (msgs : list Message) :
  run g (S limit) at_END msgs = ret msgs.
Proof. reflexivity. Qed.

(** ** The threads of the tool node *)

(** What one round of the loop does. *)
Lemma retrieve_doc_eq (doc : Document) (s : Sys) :
  retrieve_doc doc s =
  match source_record doc with
  | Ok r => (Ok (passage_line doc),
             mkSys (world s) (retrieved_sources s ++ [r]) (log s))
  | Raise e => (Raise e, s)
  end.
Proof.
  unfold retrieve_doc, passage_line. monad.
  destruct (source_record doc); reflexivity.
Qed.

(** What one step of a thread does. *)
Lemma thread_step_eq (t : Thread) (s : Sys) :
  thread_step t s =
  match t with
  | th_reset query => (Ok (th_search query), mkSys (world s) [] (log s))
  | th_search query =>
      match retriever_invoke E query (world s) with
      | (Ok docs, w) =>
          (Ok (match docs with
               | [] => th_return (Ok NO_RESULTS)
               | _ => th_loop docs []
               end),
           mkSys w (retrieved_sources s) (EvRetrieved docs :: EvRetrieve query :: log s))
      | (Raise e, w) =>
          (Ok (th_return (Raise e)),
           mkSys w (retrieved_sources s) (EvRetrieve query :: log s))
      end
  | th_loop [] results => (Ok (th_return (Ok (String.concat SEPARATOR results))), s)
  | th_loop (doc :: rest) results =>
      match source_record doc with
      | Ok r => (Ok (th_loop rest (results ++ [passage_line doc])),
                 mkSys (world s) (retrieved_sources s ++ [r]) (log s))
      | Raise e => (Ok (th_return (Raise e)), s)
      end
  | th_return _ => (Ok t, s)
  end.
Proof.
  destruct t as [query | query | [|doc rest] results | r]; try reflexivity.
  - unfold thread_step, attempt. monad.
    destruct (retriever_invoke E query (world s)) as [[docs | e] w]; reflexivity.
  - unfold thread_step, attempt. cbv [bind]. rewrite retrieve_doc_eq.
    destruct (source_record doc); reflexivity.
Qed.

Lemma thread_step_returns (t : Thread) (s : Sys) :
  exists t' s', thread_step t s = (Ok t', s').
Proof.
  rewrite thread_step_eq.
  destruct t as [query | query | [|doc rest] results | r]; try (eexists _, _; reflexivity).
  - destruct (retriever_invoke E query (world s)) as [[docs | e] w]; eexists _, _; reflexivity.
  - destruct (source_record doc); eexists _, _; reflexivity.
Qed.

(** Finishing the loop is the loop of [retrieve_from_books]. *)
Lemma finish_loop_docs (docs : list Document) :
  forall (results : list string) (s : Sys),
    finish_loop docs results s =
    match retrieve_docs docs s with
    | (Ok lines, s') => (Ok (String.concat SEPARATOR (results ++ lines)), s')
    | (Raise e, s') => (Raise e, s')
    end.
Proof.
  induction docs as [|doc docs IH]; intros results s.
  - simpl. unfold ret. rewrite app_nil_r. reflexivity.
  - cbn [finish_loop retrieve_docs]. cbv [bind].
    destruct (retrieve_doc doc s) as [[line | e] s1]; [|reflexivity].
    rewrite IH.
    destruct (retrieve_docs docs s1) as [[lines | e] s2]; [|reflexivity].
    unfold ret. rewrite <- app_assoc. reflexivity.
Qed.

(** A thread that runs alone from its first statement runs the tool. *)
Lemma finish_reset (query : string) (s : Sys) :
  finish (th_reset query) s = retrieve_from_books query s.
Proof.
  unfold finish, finish_search, retrieve_from_books. monad.
  destruct (retriever_invoke E query (world s)) as [[docs | e] w]; [|reflexivity].
  destruct docs as [|doc docs]; [reflexivity|].
  rewrite finish_loop_docs. unfold bind.
  match goal with |- context [retrieve_docs ?l ?s1] =>
    destruct (retrieve_docs l s1) as [[lines | e] s2]
  end; reflexivity.
Qed.

(** Finishing after one step is finishing. *)
Lemma finish_step (t t' : Thread) (s s' : Sys) :
  thread_step t s = (Ok t', s') -> finish t' s' = finish t s.
Proof.
  rewrite thread_step_eq.
  destruct t as [query | query | [|doc rest] results | r].
  - intros Heq. injection Heq as <- <-. reflexivity.
  - unfold finish at 2. unfold finish_search. monad.
    destruct (retriever_invoke E query (world s)) as [[docs | e] w];
      intros Heq; injection Heq as <- <-; [|reflexivity].
    destruct docs; reflexivity.
  - intros Heq. injection Heq as <- <-. reflexivity.
  - cbn [finish finish_loop]. unfold bind. rewrite retrieve_doc_eq.
    destruct (source_record doc) as [r | e]; intros Heq; injection Heq as <- <-;
      reflexivity.
  - intros Heq. injection Heq as <- <-. reflexivity.
Qed.

Lemma iterate_return (n : nat) (r : result string) (s : Sys) :
  iterate n (th_return r) s = (Ok (th_return r), s).
Proof. induction n as [|n IH]; [reflexivity|]. cbn [iterate]. unfold bind. simpl. exact IH. Qed.

Lemma iterate_loop (docs : list Document) :
  forall (results : list string) (s : Sys),
    iterate (S (List.length docs)) (th_loop docs results) s =
    (Ok (th_return (fst (finish_loop docs results s))), snd (finish_loop docs results s)).
Proof.
  induction docs as [|doc docs IH]; intros results s; [reflexivity|].
  change (iterate (S (List.length (doc :: docs))) (th_loop (doc :: docs) results) s)
    with (bind (thread_step (th_loop (doc :: docs) results))
               (fun t' => iterate (S (List.length docs)) t') s).
  unfold bind at 1. rewrite thread_step_eq. cbn [finish_loop]. unfold bind.
  rewrite retrieve_doc_eq. destruct (source_record doc) as [r | e].
  - apply IH.
  - apply iterate_return.
Qed.

(** The steps of a thread lead to where [finish] says. *)
Lemma finish_by_steps (t : Thread) (s : Sys) :
  exists n,
    iterate n t s = (Ok (th_return (fst (finish t s))), snd (finish t s)).
Proof.
  assert (Hsearch : forall query s0,
            exists n, iterate n (th_search query) s0
                      = (Ok (th_return (fst (finish_search query s0))),
                         snd (finish_search query s0))).
  { intros query s0.
    destruct (retriever_invoke E query (world s0)) as [[docs | e] w] eqn:Hcall.
    - exists (S (S (List.length docs))).
      change (iterate (S (S (List.length docs))) (th_search query) s0)
        with (bind (thread_step (th_search query))
                   (fun t' => iterate (S (List.length docs)) t') s0).
      unfold bind at 1. rewrite thread_step_eq, Hcall.
      unfold finish_search. monad. rewrite Hcall.
      destruct docs as [|doc docs]; [apply iterate_return | apply iterate_loop].
    - exists 1. cbn [iterate]. unfold bind. rewrite thread_step_eq, Hcall.
      unfold finish_search. monad. rewrite Hcall. reflexivity. }
  destruct t as [query | query | docs results | r].
  - destruct (Hsearch query (mkSys (world s) [] (log s))) as [n Hn].
    exists (S n). cbn [iterate]. unfold bind at 1. rewrite thread_step_eq. exact Hn.
  - apply Hsearch.
  - exists (S (List.length docs)). apply iterate_loop.
  - exists 0. destruct r; reflexivity.
Qed.

Lemma collect_cons (t : Thread) (rest : list Thread) (s : Sys) :
  collect (t :: rest) s =
  match finish t s with
  | (Ok text, s1) => (texts <- collect rest ;; ret (text :: texts)) s1
  | (Raise e, s1) =>
      match handle_tool_errors E e with
      | Some text => (texts <- collect rest ;; ret (text :: texts)) s1
      | None => (drain rest ;;; raise e) s1
      end
  end.
Proof.
  cbn [collect]. unfold bind at 1. unfold attempt.
  destruct (finish t s) as [[text | e] s1]; [reflexivity|].
  destruct (handle_tool_errors E e); reflexivity.
Qed.

(** What holds of every thread of a pool, whichever takes the next
    step: [Q] goes from a thread to where its step leads, and is kept
    for the others. *)
Section ThreadInvariant.

Variable Q : Thread -> Sys -> Prop.

Hypothesis Q_own : forall t t' s s',
  thread_step t s = (Ok t', s') -> Q t s -> Q t' s'.

Hypothesis Q_others : forall t u s,
  Q t s -> Q u s -> Q u (snd (thread_step t s)).

Lemma pool_step_invariant (pool : list Thread) :
  forall (i : nat) (s : Sys) (watch : list Thread),
    Forall (fun t => Q t s) pool -> Forall (fun t => Q t s) watch ->
    exists pool' s',
      pool_step i pool s = (Ok pool', s') /\
      List.length pool' = List.length pool /\
      Forall (fun t => Q t s') pool' /\ Forall (fun t => Q t s') watch.
Proof.
  induction pool as [|t rest IH]; intros i s watch Hpool Hwatch.
  - exists [], s. destruct i; repeat split; assumption.
  - inversion Hpool as [|t0 rest0 Ht Hrest]; subst. destruct i as [|j].
    + cbn [pool_step]. unfold bind.
      destruct (thread_step_returns t s) as [t' [s' Hstep]].
      assert (Hkept : forall l, Forall (fun u => Q u s) l -> Forall (fun u => Q u s') l).
      { intros l Hl. apply Forall_forall. intros u Hu.
        replace s' with (snd (thread_step t s)) by (rewrite Hstep; reflexivity).
        apply Q_others; [exact Ht | exact (proj1 (Forall_forall _ _) Hl u Hu)]. }
      rewrite Hstep. exists (t' :: rest), s'. split; [reflexivity|].
      split; [reflexivity|]. split; [|exact (Hkept _ Hwatch)].
      constructor; [exact (Q_own _ _ _ _ Hstep Ht) | exact (Hkept _ Hrest)].
    + cbn [pool_step]. unfold bind.
      destruct (IH j s (t :: watch) Hrest (Forall_cons _ Ht Hwatch))
        as [rest' [s' [Hstep [Hlen [Hrest' Hwatch']]]]].
      rewrite Hstep. exists (t :: rest'), s'. split; [reflexivity|].
      inversion Hwatch' as [|t1 w1 Ht' Hw']; subst.
      split; [simpl; f_equal; exact Hlen|]. split; [constructor|]; assumption.
Qed.

Lemma run_schedule_invariant (schedule : list nat) :
  forall (pool : list Thread) (s : Sys) (watch : list Thread),
    Forall (fun t => Q t s) pool -> Forall (fun t => Q t s) watch ->
    exists pool' s',
      run_schedule schedule pool s = (Ok pool', s') /\
      List.length pool' = List.length pool /\
      Forall (fun t => Q t s') pool' /\ Forall (fun t => Q t s') watch.
Proof.
  induction schedule as [|i later IH]; intros pool s watch Hpool Hwatch.
  - exists pool, s. repeat split; assumption.
  - cbn [run_schedule]. unfold bind.
    destruct (pool_step_invariant pool i s watch Hpool Hwatch)
      as [pool1 [s1 [Hstep [Hlen [Hpool1 Hwatch1]]]]].
    rewrite Hstep.
    destruct (IH pool1 s1 watch Hpool1 Hwatch1) as [pool2 [s2 [Hrun [Hlen2 Hrest]]]].
    exists pool2, s2. split; [exact Hrun|]. split; [congruence | exact Hrest].
Qed.

Lemma iterate_invariant (n : nat) :
  forall (t : Thread) (s : Sys) (watch : list Thread),
    Q t s -> Forall (fun u => Q u s) watch ->
    exists t' s',
      iterate n t s = (Ok t', s') /\ Q t' s' /\ Forall (fun u => Q u s') watch.
Proof.
  induction n as [|n IH]; intros t s watch Ht Hwatch.
  - exists t, s. repeat split; assumption.
  - cbn [iterate]. unfold bind.
    destruct (pool_step_invariant [t] 0 s watch (Forall_cons _ Ht (Forall_nil _)) Hwatch)
      as [pool1 [s1 [Hstep [_ [Hpool1 Hwatch1]]]]].
    cbn [pool_step] in Hstep. unfold bind in Hstep.
    destruct (thread_step t s) as [[t1 | e] s0]; [|discriminate].
    injection Hstep as <- <-. inversion Hpool1; subst.
    apply IH; assumption.
Qed.

Lemma finish_invariant (t : Thread) (s : Sys) (watch : list Thread) :
  Q t s -> Forall (fun u => Q u s) watch ->
  Q (th_return (fst (finish t s))) (snd (finish t s)) /\
  Forall (fun u => Q u (snd (finish t s))) watch.
Proof.
  intros Ht Hwatch. destruct (finish_by_steps t s) as [n Hn].
  destruct (iterate_invariant n t s watch Ht Hwatch) as [t' [s' [Hrun Hrest]]].
  rewrite Hn in Hrun. injection Hrun as <- <-. exact Hrest.
Qed.

Lemma drain_invariant (pool : list Thread) :
  forall (s : Sys) (watch : list Thread),
    Forall (fun t => Q t s) pool -> Forall (fun t => Q t s) watch ->
    fst (drain pool s) = Ok tt /\ Forall (fun t => Q t (snd (drain pool s))) watch.
Proof.
  induction pool as [|t rest IH]; intros s watch Hpool Hwatch; [split; [reflexivity | exact Hwatch]|].
  inversion Hpool as [|t0 rest0 Ht Hrest]; subst.
  cbn [drain]. destruct (started t).
  - destruct (finish_invariant t s (rest ++ watch) Ht
                (proj2 (Forall_app _ _ _) (conj Hrest Hwatch))) as [_ Hkept].
    apply Forall_app in Hkept. destruct Hkept as [Hrest1 Hwatch1].
    cbv [bind attempt ret]. destruct (finish t s) as [r s1]. cbn [snd] in *.
    exact (IH s1 watch Hrest1 Hwatch1).
  - cbv [bind ret]. exact (IH s watch Hrest Hwatch).
Qed.

Lemma collect_invariant (pool : list Thread) :
  forall (s : Sys) (watch : list Thread),
    Forall (fun t => Q t s) pool -> Forall (fun t => Q t s) watch ->
    Forall (fun t => Q t (snd (collect pool s))) watch /\
    (forall texts,
       fst (collect pool s) = Ok texts ->
       List.length texts = List.length pool /\
       (pool <> [] -> exists r, Q (th_return r) (snd (collect pool s)))).
Proof.
  induction pool as [|t rest IH]; intros s watch Hpool Hwatch.
  - split; [exact Hwatch|]. intros texts Heq. injection Heq as <-.
    split; [reflexivity | congruence].
  - inversion Hpool as [|t0 rest0 Ht Hrest]; subst.
    destruct (finish_invariant t s (rest ++ watch) Ht
                (proj2 (Forall_app _ _ _) (conj Hrest Hwatch))) as [Hdone Hkept].
    apply Forall_app in Hkept. destruct Hkept as [Hrest1 Hwatch1].
    rewrite collect_cons.
    destruct (finish t s) as [r s1]. cbn [fst snd] in *.
    assert (Hnext :
      forall text,
        Forall (fun u => Q u (snd ((texts <- collect rest ;; ret (text :: texts)) s1))) watch /\
        (forall texts,
           fst ((texts <- collect rest ;; ret (text :: texts)) s1) = Ok texts ->
           List.length texts = S (List.length rest) /\
           (t :: rest <> [] ->
            exists r0, Q (th_return r0)
                         (snd ((texts <- collect rest ;; ret (text :: texts)) s1))))).
    { intros text.
      destruct (IH s1 (th_return r :: watch) Hrest1 (Forall_cons _ Hdone Hwatch1))
        as [Hall Hok].
      inversion Hall as [|t1 w1 Hr Hw]; subst. unfold bind.
      destruct (collect rest s1) as [[texts | e] s2]; cbn [fst snd] in *.
      - split; [exact Hw|]. intros texts' Heq. injection Heq as <-.
        split; [simpl; f_equal; exact (proj1 (Hok texts eq_refl)) | intros _; exists r; exact Hr].
      - split; [exact Hw | discriminate]. }
    destruct r as [text | e]; [exact (Hnext text)|].
    destruct (handle_tool_errors E e) as [text|]; [exact (Hnext text)|].
    destruct (drain_invariant rest s1 watch Hrest1 Hwatch1) as [Hdrained Hw].
    cbv [bind raise]. destruct (drain rest s1) as [[[] | e'] s2]; cbn [fst snd] in *;
      (split; [exact Hw | discriminate]).
Qed.

Lemma run_calls_invariant (calls : list string) (s : Sys) (watch : list Thread) :
  (forall query, In query calls -> Q (th_reset query) s) ->
  Forall (fun t => Q t s) watch ->
  Forall (fun t => Q t (snd (run_calls calls s))) watch /\
  (forall texts,
     fst (run_calls calls s) = Ok texts ->
     List.length texts = List.length calls /\
     (calls <> [] -> exists r, Q (th_return r) (snd (run_calls calls s)))).
Proof.
  intros Hcalls Hwatch. unfold run_calls. cbv [bind].
  assert (Hpool : Forall (fun t => Q t s) (map th_reset calls)).
  { apply Forall_forall. intros t Ht. apply in_map_iff in Ht.
    destruct Ht as [query [<- Hq]]. exact (Hcalls query Hq). }
  destruct (run_schedule_invariant (tool_schedule E calls (world s))
              (map th_reset calls) s watch Hpool Hwatch)
    as [pool [s1 [Hrun [Hlen [Hpool1 Hwatch1]]]]].
  rewrite Hrun. rewrite length_map in Hlen.
  destruct (collect_invariant pool s1 watch Hpool1 Hwatch1) as [Hkept Hok].
  split; [exact Hkept|]. intros texts Heq. destruct (Hok texts Heq) as [Hcount Hlast].
  split; [congruence|]. intros Hne. apply Hlast. intros ->.
  destruct calls; [congruence | discriminate].
Qed.

End ThreadInvariant.

(** ** The tool node and the log *)

Lemma tool_messages_eq (texts : list string) : forall s : Sys,
  tool_messages texts s =
  (Ok (map ToolMessage texts),
   mkSys (world s) (retrieved_sources s) (rev (map EvToolMessage texts) ++ log s)).
Proof.
  induction texts as [|text texts IH]; intros s; [destruct s; reflexivity|].
  cbn [tool_messages]. cbv [bind emit]. rewrite IH. unfold ret.
  cbn [world retrieved_sources log map rev]. rewrite <- app_assoc. reflexivity.
Qed.

(** Every step of a thread adds events of the tool node to the log. *)
Lemma thread_step_log (t : Thread) (s : Sys) :
  exists added,
    log (snd (thread_step t s)) = (added ++ log s)%list /\ Forall tool_event added.
Proof.
  rewrite thread_step_eq.
  destruct t as [query | query | [|doc rest] results | r];
    try (exists []; split; [reflexivity | constructor]).
  - destruct (retriever_invoke E query (world s)) as [[docs | e] w].
    + exists [EvRetrieved docs; EvRetrieve query]. split; [reflexivity | repeat constructor].
    + exists [EvRetrieve query]. split; [reflexivity | repeat constructor].
  - destruct (source_record doc); exists []; split; try reflexivity; constructor.
Qed.

Lemma run_calls_log (calls : list string) (s : Sys) :
  exists added,
    log (snd (run_calls calls s)) = (added ++ log s)%list /\ Forall tool_event added.
Proof.
  set (Q := fun (_ : Thread) (s' : Sys) =>
              exists added, log s' = (added ++ log s)%list /\ Forall tool_event added).
  assert (Hgrow : forall t s0, Q t s0 -> forall u, Q u (snd (thread_step t s0))).
  { intros t s0 [added [Hlog Hev]] u. destruct (thread_step_log t s0) as [more [Hmore Hev2]].
    exists (more ++ added)%list. split; [rewrite Hmore, Hlog, app_assoc; reflexivity|].
    apply Forall_app. split; assumption. }
  assert (Hstart : Q (th_return (Ok "")) s) by (exists []; split; [reflexivity | constructor]).
  destruct (run_calls_invariant Q) with (calls := calls) (s := s)
                                        (watch := [th_return (Ok "")]) as [Hkept _].
  - intros t t' s0 s' Hstep Ht.
    replace s' with (snd (thread_step t s0)) by (rewrite Hstep; reflexivity).
    exact (Hgrow t s0 Ht t').
  - intros t u s0 Ht _. exact (Hgrow t s0 Ht u).
  - intros query _. exact Hstart.
  - constructor; [exact Hstart | constructor].
  - inversion Hkept; subst. assumption.
Qed.

(** One text per call. *)
Lemma run_calls_count (calls : list string) (s : Sys) (texts : list string) :
  fst (run_calls calls s) = Ok texts -> List.length texts = List.length calls.
Proof.
  intros Heq.
  assert (Hall : Forall (fun _ : Thread => True) []) by constructor.
  exact (proj1 (proj2 (run_calls_invariant (fun _ _ => True)
                         (fun _ _ _ _ _ _ => I) (fun _ _ _ _ _ => I)
                         calls s [] (fun _ _ => I) Hall) texts Heq)).
Qed.

Lemma run_tools_log (calls : list string) : forall s : Sys,
  match run_tools calls s with
  | (Ok ms, s') =>
      exists added,
        log s' = (added ++ log s)%list /\ Forall tool_event added /\
        ((calls = [] /\ ms = []) \/
         (exists ms0 c added0,
            ms = (ms0 ++ [ToolMessage c])%list /\ added = EvToolMessage c :: added0))
  | (Raise e, s') =>
      exists added, log s' = (added ++ log s)%list /\ Forall tool_event added
  end.
Proof.
  intros s. unfold run_tools, bind.
  destruct (run_calls_log calls s) as [added [Hlog Hev]].
  pose proof (run_calls_count calls s) as Hcount.
  destruct (run_calls calls s) as [[texts | e] s1]; cbn [fst snd] in *;
    [|exists added; split; assumption].
  specialize (Hcount texts eq_refl).
  rewrite tool_messages_eq. cbn [log].
  assert (Hturns : Forall tool_event (rev (map EvToolMessage texts))).
  { apply Forall_forall. intros ev Hin. apply in_rev, in_map_iff in Hin.
    destruct Hin as [text [<- _]]. exact I. }
  exists (rev (map EvToolMessage texts) ++ added)%list.
  split; [rewrite Hlog, app_assoc; reflexivity|].
  split; [apply Forall_app; split; assumption|].
  destruct texts as [|text1 texts1].
  { left. destruct calls; [split; reflexivity | discriminate]. }
  destruct (@exists_last _ (text1 :: texts1)) as [texts0 [text Htexts]]; [discriminate|].
  right. exists (map ToolMessage texts0), text, (rev (map EvToolMessage texts0) ++ added)%list.
  rewrite Htexts, !map_app. cbn [map]. rewrite rev_unit. split; reflexivity.
Qed.

(** The calls of a reply with one tool call run as [run_tool] has it,
    whatever the scheduler does. *)
Lemma run_schedule_single (schedule : list nat) :
  forall (t : Thread) (s : Sys),
    exists t' s',
      run_schedule schedule [t] s = (Ok [t'], s') /\ finish t' s' = finish t s.
Proof.
  induction schedule as [|i later IH]; intros t s.
  - exists t, s. split; reflexivity.
  - cbn [run_schedule]. unfold bind at 1. destruct i as [|j].
    + cbn [pool_step]. unfold bind at 1.
      destruct (thread_step_returns t s) as [t1 [s1 Hstep]]. rewrite Hstep. unfold ret.
      destruct (IH t1 s1) as [t2 [s2 [Hrun Hfinish]]].
      exists t2, s2. split; [exact Hrun|]. rewrite Hfinish. exact (finish_step _ _ _ _ Hstep).
    + cbn [pool_step]. cbv [bind ret]. destruct j; apply IH.
Qed.

Lemma run_tools_single (query : string) (s : Sys) :
  run_tools [query] s = (m <- run_tool query ;; ret [m]) s.
Proof.
  unfold run_tools, run_calls. cbv [bind]. cbn [map].
  destruct (run_schedule_single (tool_schedule E [query] (world s)) (th_reset query) s)
    as [t [s1 [Hrun Hfinish]]].
  rewrite Hrun, collect_cons, Hfinish, finish_reset. unfold run_tool.
  destruct (retrieve_from_books query s) as [[text | e] s2].
  - reflexivity.
  - destruct (handle_tool_errors E e) as [text|]; reflexivity.
Qed.

(** ** The invariant of a run *)

Lemma log_wf_tool_events (q : string) (added lg : list event) :
  Forall tool_event added -> log_wf q lg -> log_wf q (added ++ lg).
Proof.
  induction 1 as [|ev added Hev _ IH]; intros Hwf; [exact Hwf|].
  simpl. split; [|exact (IH Hwf)].
  destruct ev; simpl in Hev; try contradiction; exact I.
Qed.

Lemma runs_of_tool_events (n : Node) (added lg : list event) :
  Forall tool_event added -> runs_of n (added ++ lg) = runs_of n lg.
Proof.
  induction 1 as [|ev added Hev _ IH]; [reflexivity|].
  destruct ev; simpl in Hev; try contradiction; simpl; exact IH.
Qed.

Lemma irrelevant_tool_events (added lg : list event) :
  Forall tool_event added -> irrelevant_verdicts (added ++ lg) = irrelevant_verdicts lg.
Proof.
  induction 1 as [|ev added Hev _ IH]; [reflexivity|].
  destruct ev; simpl in Hev; try contradiction; simpl; exact IH.
Qed.

Lemma Inv_Aborted (q : string) (n : Node) (msgs : list Message) (lg : list event) :
  Inv q n msgs lg -> Aborted q lg.
Proof.
  intros [_ [Hwf [_ Hbal]]]. split; [exact Hwf|].
  destruct n; simpl in Hbal; lia.
Qed.

Lemma step_route_preserves (q : string) (msgs : list Message) (s : Sys) :
  Inv q at_generate_query_or_respond msgs (log s) ->
  match step build_graph at_generate_query_or_respond msgs s with
  | (Ok nm, s') => Inv q (fst nm) (snd nm) (log s')
  | (Raise e, s') => Aborted q (log s')
  end.
Proof.
  intros [[rest Hmsgs] [Hwf [_ [HR HG]]]]. rewrite step_route.
  destruct (route_llm E msgs (world s)) as [[[c calls] | e] w]; cbn [fst snd log].
  - split; [exists (rest ++ [AIMessage c calls])%list; subst; reflexivity|].
    split; [split; [exact I | exact Hwf]|].
    destruct calls as [|call calls]; simpl; (split; [|simpl; lia]).
    + exact I.
    + split; [eexists; reflexivity | exists msgs, c, call, calls; reflexivity].
  - split; [split; [exact I | exact Hwf] | simpl; lia].
Qed.

Lemma step_rewrite_preserves (q : string) (msgs : list Message) (s : Sys) :
  Inv q at_rewrite_question msgs (log s) ->
  match step build_graph at_rewrite_question msgs s with
  | (Ok nm, s') => Inv q (fst nm) (snd nm) (log s')
  | (Raise e, s') => Aborted q (log s')
  end.
Proof.
  intros [[rest Hmsgs] [Hwf [Hpend [HR HG]]]]. subst msgs. rewrite step_rewrite.
  cbn [content HumanMessage].
  assert (Hnode : log_wf q (EvNode at_rewrite_question :: log s))
    by (split; [exact Hpend | exact Hwf]).
  destruct (llm_invoke E (REWRITE_PROMPT q) (world s)) as [[r | e] w]; cbn [fst snd log].
  - split; [eexists; reflexivity|].
    split; [split; [split; [reflexivity | eexists; reflexivity] | exact Hnode]|].
    split; [exact I | simpl; lia].
  - split; [exact Hnode | simpl; lia].
Qed.

Lemma step_generate_preserves (q : string) (msgs : list Message) (s : Sys) :
  Inv q at_generate_answer msgs (log s) ->
  match step build_graph at_generate_answer msgs s with
  | (Ok nm, s') => Inv q (fst nm) (snd nm) (log s')
  | (Raise e, s') => Aborted q (log s')
  end.
Proof.
  intros [[rest Hmsgs] [Hwf [[pre [m [older [Hsnoc Hlog]]]] [HR HG]]]]. subst msgs.
  rewrite (@step_generate _ _ _ _ s Hsnoc). cbn [content HumanMessage].
  assert (Hnode : log_wf q (EvNode at_generate_answer :: log s)).
  { split; [|exact Hwf]. rewrite Hlog. simpl. eexists _, _. reflexivity. }
  destruct (llm_invoke E (GENERATE_PROMPT q (content m)) (world s)) as [[a | e] w];
    cbn [fst snd log].
  - split; [eexists; reflexivity|].
    split; [split; [|exact Hnode]|].
    + split; [reflexivity|]. rewrite Hlog. eexists. reflexivity.
    + split; [exact I | simpl; lia].
  - split; [exact Hnode | simpl; lia].
Qed.

Lemma step_retrieve_preserves (q : string) (msgs : list Message) (s : Sys) :
  Inv q at_retrieve msgs (log s) ->
  match step build_graph at_retrieve msgs s with
  | (Ok nm, s') => Inv q (fst nm) (snd nm) (log s')
  | (Raise e, s') => Aborted q (log s')
  end.
Proof.
  intros [[rest Hmsgs] [Hwf [[Hfrom [pre [c [call [calls Hsnoc]]]]] [HR HG]]]].
  assert (Hnode : log_wf q (EvNode at_retrieve :: log s))
    by (split; [exact Hfrom | exact Hwf]).
  assert (Htool : forall s0, ToolNode msgs s0 = run_tools (call :: calls) s0)
    by (intros s0; unfold ToolNode; rewrite Hsnoc, rev_unit; reflexivity).
  unfold step, build_graph; cbn [node_fn edge]. cbv [bind emit]. rewrite Htool.
  match goal with |- context [run_tools ?l ?s1] =>
    pose proof (run_tools_log l s1) as Htools; destruct (run_tools l s1) as [[ms | e] s2]
  end; cbn [log] in Htools.
  - destruct Htools as [added [Hlog [Hev [[Hnil _] | [ms0 [c' [added0 [Hms Hadd]]]]]]]];
      [discriminate|].
    assert (Hturns : (msgs ++ ms)%list = HumanMessage q :: (rest ++ ms)%list)
      by (rewrite Hmsgs; reflexivity).
    assert (Hlast : HumanMessage q :: (rest ++ ms)%list
                    = ((msgs ++ ms0) ++ [ToolMessage c'])%list)
      by (rewrite <- Hturns, Hms, app_assoc; reflexivity).
    rewrite Hturns, (@grade_documents_eq _ _ _ _ s2 Hlast). cbn [content HumanMessage ToolMessage].
    assert (Hwf2 : log_wf q (log s2))
      by (rewrite Hlog; apply log_wf_tool_events; assumption).
    assert (Hruns : forall n, runs_of n (log s2) = runs_of n (EvNode at_retrieve :: log s))
      by (intros n; rewrite Hlog; apply runs_of_tool_events; exact Hev).
    assert (Hirr : irrelevant_verdicts (log s2) = irrelevant_verdicts (log s))
      by (rewrite Hlog; apply (irrelevant_tool_events added (EvNode at_retrieve :: log s));
          exact Hev).
    destruct (grader_llm E (GRADE_PROMPT q c') (world s2)) as [[score | e] w];
      cbn [ret fst snd log].
    + assert (Hgrade : log_wf q (EvGrade q c' score :: log s2)).
      { split; [|exact Hwf2]. split; [reflexivity|].
        rewrite Hlog, Hadd. eexists. reflexivity. }
      split; [eexists; reflexivity|]. split; [exact Hgrade|].
      destruct (String.eqb_spec score "yes") as [Hyes | Hno].
      * subst score. split.
        -- exists (msgs ++ ms0)%list, (ToolMessage c').
           rewrite Hlog, Hadd. eexists. split; [exact Hlast | reflexivity].
        -- simpl. rewrite !Hruns, Hirr. simpl. lia.
      * split.
        -- exists c', score. eexists. split; [reflexivity | exact Hno].
        -- simpl. rewrite (proj2 (String.eqb_neq score "yes") Hno), !Hruns, Hirr.
           simpl. lia.
    + split; [exact Hwf2|]. rewrite !Hruns, Hirr. simpl. lia.
  - destruct Htools as [added [Hlog Hev]].
    split; [rewrite Hlog; apply log_wf_tool_events; assumption|].
    rewrite Hlog, !runs_of_tool_events by exact Hev.
    rewrite (irrelevant_tool_events added (EvNode at_retrieve :: log s)) by exact Hev.
    simpl. lia.
Qed.

Lemma step_preserves (q : string) (n : Node) (msgs : list Message) (s : Sys) :
  Inv q n msgs (log s) -> n <> at_END ->
  match step build_graph n msgs s with
  | (Ok nm, s') => Inv q (fst nm) (snd nm) (log s')
  | (Raise e, s') => Aborted q (log s')
  end.
Proof.
  intros Hinv Hn. destruct n.
  - apply step_route_preserves; exact Hinv.
  - apply step_retrieve_preserves; exact Hinv.
  - apply step_rewrite_preserves; exact Hinv.
  - apply step_generate_preserves; exact Hinv.
  - congruence.
Qed.

Lemma run_preserves (q : string) (limit : nat) :
  forall (n : Node) (msgs : list Message) (s : Sys),
    Inv q n msgs (log s) ->
    match run build_graph limit n msgs s with
    | (Ok msgs', s') => Inv q at_END msgs' (log s')
    | (Raise e, s') => Aborted q (log s')
    end.
Proof.
  induction limit as [|k IH]; intros n msgs s Hinv.
  - exact (Inv_Aborted _ _ _ _ Hinv).
  - destruct n; try exact Hinv;
      (cbn [run]; unfold bind;
       match goal with |- context [step build_graph ?n ?m ?s0] =>
         assert (Hstep := @step_preserves q n m s0 Hinv ltac:(discriminate));
         destruct (step build_graph n m s0) as [[nm | e] s1]
       end; [apply IH; exact Hstep | exact Hstep]).
Qed.

Lemma steps_preserves (q : string) (k : nat) :
  forall (n : Node) (msgs : list Message) (s : Sys),
    Inv q n msgs (log s) ->
    match steps build_graph k n msgs s with
    | (Ok nm, s') => Inv q (fst nm) (snd nm) (log s')
    | (Raise e, s') => Aborted q (log s')
    end.
Proof.
  induction k as [|k IH]; intros n msgs s Hinv; [exact Hinv|].
  destruct n; try exact Hinv;
    (cbn [steps]; unfold bind;
     match goal with |- context [step build_graph ?n ?m ?s0] =>
       assert (Hstep := @step_preserves q n m s0 Hinv ltac:(discriminate));
       destruct (step build_graph n m s0) as [[nm | e] s1]
     end; [apply IH; exact Hstep | exact Hstep]).
Qed.

Lemma Inv_init (q : string) :
  Inv q at_generate_query_or_respond [HumanMessage q] [].
Proof.
  split; [exists []; reflexivity|]. repeat split.
Qed.

Lemma log_wf_follows (q : string) (newer : list event) :
  forall (lg older : list event) (ev : event),
    log_wf q lg -> lg = (newer ++ ev :: older)%list -> follows q ev older.
Proof.
  induction newer as [|ev' newer IH]; intros lg older ev Hwf ->.
  - exact (proj1 Hwf).
  - exact (IH _ older ev (proj2 Hwf) eq_refl).
Qed.

Lemma invoke_log (limit : nat) (q : string) (w : World E) (sources : list SourceRecord) :
  Aborted q (log (snd (invoke build_graph limit q (fresh w sources)))) /\
  (forall msgs, fst (invoke build_graph limit q (fresh w sources)) = Ok msgs ->
                Inv q at_END msgs (log (snd (invoke build_graph limit q (fresh w sources))))).
Proof.
  unfold invoke. cbn [entry build_graph].
  pose proof (@run_preserves q limit at_generate_query_or_respond [HumanMessage q]
                (fresh w sources) (Inv_init q)) as Hrun.
  destruct (run build_graph limit at_generate_query_or_respond [HumanMessage q]
              (fresh w sources)) as [[msgs | e] s']; cbn [fst snd].
  - split; [exact (Inv_Aborted _ _ _ _ Hrun)|]. intros msgs' Heq. injection Heq as <-. exact Hrun.
  - split; [exact Hrun | discriminate].
Qed.

(** ** Where the stored sources come from *)

Lemma frame_preserves {A : Type} (base : list event) (m : M A) :
  frame m -> preserves base m.
Proof.
  intros Hframe s [added [Hlog Hsrc]]. destruct (Hframe s) as [Hkeep [more Hmore]].
  exists (more ++ added)%list. split; [rewrite Hmore, Hlog, app_assoc; reflexivity|].
  intros r Hin. rewrite Hkeep in Hin. destruct (Hsrc r Hin) as [docs [doc [Hev Hdoc]]].
  exists docs, doc. split; [apply in_or_app; right; exact Hev | exact Hdoc].
Qed.

Lemma preserves_bind {A B : Type} (base : list event) (m : M A) (k : A -> M B) :
  preserves base m -> (forall a, preserves base (k a)) -> preserves base (bind m k).
Proof.
  intros Hm Hk s Hs. unfold bind. specialize (Hm s Hs).
  destruct (m s) as [[a | e] s1]; [exact (Hk a s1 Hm) | exact Hm].
Qed.

Lemma frame_bind {A B : Type} (m : M A) (k : A -> M B) :
  frame m -> (forall a, frame (k a)) -> frame (bind m k).
Proof.
  intros Hm Hk s. unfold bind. destruct (Hm s) as [Hkeep [added Hlog]].
  destruct (m s) as [[a | e] s1]; cbn [snd] in *.
  - destruct (Hk a s1) as [Hkeep2 [added2 Hlog2]]. split; [congruence|].
    exists (added2 ++ added)%list. rewrite Hlog2, Hlog, app_assoc. reflexivity.
  - split; [exact Hkeep | exists added; exact Hlog].
Qed.

Lemma frame_ret {A : Type} (a : A) : frame (ret a).
Proof. intros s. split; [reflexivity | exists []; reflexivity]. Qed.

Lemma frame_raise {A : Type} (e : exn) : frame (@raise A e).
Proof. intros s. split; [reflexivity | exists []; reflexivity]. Qed.

Lemma frame_lift {A : Type} (r : result A) : frame (lift r).
Proof. intros s. split; [reflexivity | exists []; reflexivity]. Qed.

Lemma frame_emit (ev : event) : frame (emit ev).
Proof. intros s. split; [reflexivity | exists [ev]; reflexivity]. Qed.

Lemma frame_get_sources : frame get_sources.
Proof. intros s. split; [reflexivity | exists []; reflexivity]. Qed.

Lemma frame_call {A B : Type} (f : A -> World E -> result B * World E) (a : A) :
  frame (call f a).
Proof.
  intros s. unfold call. destruct (f a (world s)) as [r w].
  split; [reflexivity | exists []; reflexivity].
Qed.

Ltac framing :=
  solve [ repeat first
    [ apply frame_ret | apply frame_raise | apply frame_lift | apply frame_emit
    | apply frame_get_sources | apply frame_call
    | apply frame_bind; [|intros ?] ] ].

Lemma frame_first_content (msgs : list Message) : frame (first_content msgs).
Proof. unfold first_content. destruct msgs; framing. Qed.

Lemma frame_last_content (msgs : list Message) : frame (last_content msgs).
Proof. unfold last_content. destruct (rev msgs); framing. Qed.

Lemma frame_grade_documents (msgs : list Message) : frame (grade_documents msgs).
Proof.
  unfold grade_documents.
  apply frame_bind; [apply frame_first_content | intros question].
  apply frame_bind; [apply frame_last_content | intros context].
  apply frame_bind; [apply frame_call | intros score].
  apply frame_bind; [apply frame_emit | intros _].
  destruct (String.eqb score "yes"); apply frame_ret.
Qed.

Lemma frame_generate_query_or_respond (msgs : list Message) :
  frame (generate_query_or_respond msgs).
Proof. unfold generate_query_or_respond. framing. Qed.

Lemma frame_rewrite_question (msgs : list Message) : frame (rewrite_question msgs).
Proof.
  unfold rewrite_question.
  apply frame_bind; [apply frame_first_content | intros question]. framing.
Qed.

Lemma frame_generate_answer (msgs : list Message) : frame (generate_answer msgs).
Proof.
  unfold generate_answer.
  apply frame_bind; [apply frame_first_content | intros question].
  apply frame_bind; [apply frame_last_content | intros context]. framing.
Qed.

Lemma frame_tools_condition (msgs : list Message) : frame (tools_condition msgs).
Proof.
  unfold tools_condition. destruct (rev msgs) as [|m rest]; [framing|].
  destruct (tool_calls m); framing.
Qed.

Lemma thread_ok_grows (base : list event) (t : Thread) (lg more : list event) :
  thread_ok base t lg -> thread_ok base t (more ++ lg).
Proof.
  destruct t as [query | query | docs results | r]; try (intros _; exact I).
  intros [added [retrieved [-> [Hev Hincl]]]].
  exists (more ++ added)%list, retrieved.
  split; [apply app_assoc|]. split; [apply in_or_app; right; exact Hev | exact Hincl].
Qed.

(** A step of a thread keeps the records' provenance, and the thread
    goes on with documents that a retrieval returned. *)
Lemma thread_step_provenance (base : list event) (t : Thread) (s : Sys) :
  provenance base s -> thread_ok base t (log s) ->
  provenance base (snd (thread_step t s)) /\
  (forall t' s', thread_step t s = (Ok t', s') -> thread_ok base t' (log s')).
Proof.
  intros [added [Hlog Hsrc]] Hok. rewrite thread_step_eq.
  destruct t as [query | query | [|doc rest] results | r].
  - split.
    + exists added. split; [exact Hlog | intros r0 []].
    + intros t' s' Heq. injection Heq as <- <-. exact I.
  - destruct (retriever_invoke E query (world s)) as [[docs | e] w].
    + split.
      * exists (EvRetrieved docs :: EvRetrieve query :: added).
        split; [cbn [snd log]; rewrite Hlog; reflexivity|].
        intros r0 Hin. destruct (Hsrc r0 Hin) as [ds [d [Hev Hd]]].
        exists ds, d. split; [right; right; exact Hev | exact Hd].
      * intros t' s' Heq. injection Heq as <- <-. destruct docs as [|doc docs]; [exact I|].
        exists (EvRetrieved (doc :: docs) :: EvRetrieve query :: added), (doc :: docs).
        split; [cbn [log]; rewrite Hlog; reflexivity|].
        split; [left; reflexivity | apply incl_refl].
    + split.
      * exists (EvRetrieve query :: added). split; [cbn [snd log]; rewrite Hlog; reflexivity|].
        intros r0 Hin. destruct (Hsrc r0 Hin) as [ds [d [Hev Hd]]].
        exists ds, d. split; [right; exact Hev | exact Hd].
      * intros t' s' Heq. injection Heq as <- <-. exact I.
  - split; [exists added; split; assumption|].
    intros t' s' Heq. injection Heq as <- <-. exact I.
  - destruct Hok as [added' [retrieved [Hlog' [Hev Hincl]]]].
    assert (Hsame : added' = added)
      by (apply (app_inv_tail base); rewrite <- Hlog, <- Hlog'; reflexivity).
    subst added'.
    destruct (source_record doc) as [r | e] eqn:Hrec.
    + split.
      * exists added. split; [exact Hlog|]. cbn [snd retrieved_sources].
        intros r0 Hin. apply in_app_or in Hin. destruct Hin as [Hin | [<- | []]].
        -- exact (Hsrc r0 Hin).
        -- exists retrieved, doc. split; [exact Hev|].
           split; [apply Hincl; left; reflexivity | exact Hrec].
      * intros t' s' Heq. injection Heq as <- <-. exists added, retrieved.
        split; [exact Hlog|]. split; [exact Hev|].
        intros d Hd. apply Hincl. right. exact Hd.
    + split; [exists added; split; assumption|].
      intros t' s' Heq. injection Heq as <- <-. exact I.
  - split; [exists added; split; assumption|].
    intros t' s' Heq. injection Heq as <- <-. exact I.
Qed.

Lemma preserves_run_calls (base : list event) (calls : list string) :
  preserves base (run_calls calls).
Proof.
  intros s Hs.
  set (Q := fun (t : Thread) (s' : Sys) => provenance base s' /\ thread_ok base t (log s')).
  assert (Hstart : forall query, Q (th_reset query) s) by (intros query; split; [exact Hs | exact I]).
  destruct (run_calls_invariant Q) with (calls := calls) (s := s) (watch := [th_reset ""])
    as [Hkept _].
  - intros t t' s0 s' Hstep [Hprov Hok].
    destruct (thread_step_provenance base t s0 Hprov Hok) as [Hnext Hthread].
    rewrite Hstep in Hnext. split; [exact Hnext | exact (Hthread t' s' Hstep)].
  - intros t u s0 [Hprov Hok] [_ Hu].
    destruct (thread_step_provenance base t s0 Hprov Hok) as [Hnext _].
    split; [exact Hnext|].
    destruct (thread_step_log t s0) as [more [Hmore _]]. rewrite Hmore.
    apply thread_ok_grows. exact Hu.
  - intros query _. apply Hstart.
  - constructor; [apply Hstart | constructor].
  - inversion Hkept as [|t0 w0 [Hprov _] _]; subst. exact Hprov.
Qed.

Lemma frame_tool_messages (texts : list string) : frame (tool_messages texts).
Proof.
  intros s. rewrite tool_messages_eq. split; [reflexivity | eexists; reflexivity].
Qed.

Lemma preserves_run_tools (base : list event) (calls : list string) :
  preserves base (run_tools calls).
Proof.
  unfold run_tools. apply preserves_bind; [apply preserves_run_calls | intros texts].
  apply frame_preserves, frame_tool_messages.
Qed.

Lemma preserves_ToolNode (base : list event) (msgs : list Message) :
  preserves base (ToolNode msgs).
Proof.
  unfold ToolNode. destruct (rev msgs) as [|m rest]; [apply frame_preserves; framing|].
  destruct (role m);
    [ apply frame_preserves; framing | apply preserves_run_tools
    | apply frame_preserves; framing ].
Qed.

Lemma preserves_step (base : list event) (n : Node) (msgs : list Message) :
  preserves base (step build_graph n msgs).
Proof.
  unfold step.
  apply preserves_bind; [apply frame_preserves; framing | intros _].
  apply preserves_bind.
  - destruct n; cbn [node_fn build_graph];
      [ apply frame_preserves, frame_generate_query_or_respond
      | apply preserves_ToolNode
      | apply frame_preserves, frame_rewrite_question
      | apply frame_preserves, frame_generate_answer
      | apply frame_preserves; framing ].
  - intros update. apply preserves_bind; [|intros next; apply frame_preserves; framing].
    apply frame_preserves.
    destruct n; cbn [edge build_graph];
      [ apply frame_tools_condition | apply frame_grade_documents
      | framing | framing | framing ].
Qed.

Lemma preserves_run (base : list event) (limit : nat) :
  forall (n : Node) (msgs : list Message), preserves base (run build_graph limit n msgs).
Proof.
  induction limit as [|k IH]; intros n msgs.
  - destruct n; apply frame_preserves; framing.
  - destruct n; try (apply frame_preserves; framing);
      (cbn [run]; apply preserves_bind; [apply preserves_step | intros nm; apply IH]).
Qed.

Lemma source_documents_from (l : list SourceRecord) :
  forall docs, source_documents l = Ok docs ->
    forall d, In d docs -> exists r, In r l /\ SourceDocument_of r = Ok d.
Proof.
  induction l as [|r l IH]; intros docs Hdocs d Hin; simpl in Hdocs.
  - injection Hdocs as <-. destruct Hin.
  - destruct (SourceDocument_of r) as [d0 | e] eqn:Hone; [|discriminate].
    destruct (source_documents l) as [ds | e]; [|discriminate].
    injection Hdocs as <-. destruct Hin as [<- | Hin].
    + exists r. split; [left; reflexivity | exact Hone].
    + destruct (IH ds eq_refl d Hin) as [r' [Hr' Hd]].
      exists r'. split; [right; exact Hr' | exact Hd].
Qed.

(** ** From one super-step to the next *)

Lemma step_eq (n : Node) (msgs : list Message) (s : Sys) :
  step build_graph n msgs s =
  match node_fn build_graph n msgs (entering n s) with
  | (Ok update, s1) =>
      match edge build_graph n (msgs ++ update) s1 with
      | (Ok next, s2) => (Ok (next, (msgs ++ update)%list), s2)
      | (Raise e, s2) => (Raise e, s2)
      end
  | (Raise e, s1) => (Raise e, s1)
  end.
Proof.
  unfold step, entering. cbv [bind emit ret].
  match goal with |- context [node_fn build_graph n msgs ?s0] =>
    destruct (node_fn build_graph n msgs s0) as [[update | e] s1]
  end; [|reflexivity].
  destruct (edge build_graph n (msgs ++ update) s1) as [[next | e] s2]; reflexivity.
Qed.

Lemma ToolNode_calls (pre : list Message) (c : string) (calls : list string) (s : Sys) :
  ToolNode (pre ++ [AIMessage c calls]) s = run_tools calls s.
Proof. unfold ToolNode. rewrite rev_unit. reflexivity. Qed.

(** The retrieve step that returns: the tool node has appended its
    tool-result turns, and the grader was asked about the last one. *)
Lemma step_retrieve_returns
  (m0 : Message) (rest msgs1 : list Message) (s s1 : Sys) (n1 : Node) :
  ready at_retrieve (m0 :: rest) ->
  step build_graph at_retrieve (m0 :: rest) s = (Ok (n1, msgs1), s1) ->
  exists turns text s_mid score,
    ToolNode (m0 :: rest) (entering at_retrieve s)
      = (Ok (turns ++ [ToolMessage text])%list, s_mid) /\
    msgs1 = (m0 :: rest ++ turns ++ [ToolMessage text])%list /\
    grader_llm E (GRADE_PROMPT (content m0) text) (world s_mid) = (Ok score, world s1) /\
    n1 = (if String.eqb score "yes" then at_generate_answer else at_rewrite_question) /\
    retrieved_sources s1 = retrieved_sources s_mid /\
    log s1 = EvGrade (content m0) text score :: log s_mid.
Proof.
  intros [pre [c [call [calls Hmsgs]]]]. rewrite step_eq. cbn [node_fn edge build_graph].
  destruct (ToolNode (m0 :: rest) (entering at_retrieve s)) as [[update | e] s_mid] eqn:Htool;
    [|discriminate].
  pose proof (run_tools_log (call :: calls) (entering at_retrieve s)) as Hlog.
  rewrite Hmsgs, ToolNode_calls in Htool. rewrite Htool in Hlog.
  destruct Hlog as [added [_ [_ [[Hnil _] | [turns [text [added0 [Hupdate _]]]]]]]];
    [discriminate|].
  subst update.
  assert (Hsnoc : m0 :: (rest ++ turns ++ [ToolMessage text])%list
                  = ((m0 :: rest ++ turns) ++ [ToolMessage text])%list)
    by (simpl; rewrite app_assoc; reflexivity).
  change ((m0 :: rest) ++ turns ++ [ToolMessage text])%list
    with (m0 :: (rest ++ turns ++ [ToolMessage text]))%list.
  rewrite (@grade_documents_eq _ _ _ _ s_mid Hsnoc). cbn [content ToolMessage].
  destruct (grader_llm E (GRADE_PROMPT (content m0) text) (world s_mid)) as [[score | e] w]
    eqn:Hcall; [|discriminate].
  intros Heq. injection Heq as <- <- <-.
  exists turns, text, s_mid, score. repeat split. exact Hcall.
Qed.

Lemma step_ready (n n1 : Node) (msgs msgs1 : list Message) (s s1 : Sys) :
  ready n msgs -> step build_graph n msgs s = (Ok (n1, msgs1), s1) -> ready n1 msgs1.
Proof.
  intros Hready Hstep. destruct n.
  - rewrite step_route in Hstep.
    destruct (route_llm E msgs (world s)) as [[[c calls] | e] w]; [|discriminate].
    injection Hstep as <- <- _. cbn [fst snd]. destruct calls as [|call calls]; [exact I|].
    exists msgs, c, call, calls. reflexivity.
  - destruct msgs as [|m0 rest];
      [destruct Hready as [pre [c [call [calls Hnil]]]]; destruct pre; discriminate|].
    destruct (step_retrieve_returns _ _ _ _ _ _ Hready Hstep)
      as [turns [text [s_mid [score [_ [-> [_ [-> _]]]]]]]].
    destruct (String.eqb score "yes"); [|exact I].
    exists (m0 :: rest ++ turns)%list, text. simpl. rewrite app_assoc. reflexivity.
  - rewrite step_eq in Hstep. cbn [node_fn edge build_graph] in Hstep.
    destruct (rewrite_question msgs (entering at_rewrite_question s)) as [[update | e] s2];
      [|discriminate].
    injection Hstep as <- _ _. exact I.
  - rewrite step_eq in Hstep. cbn [node_fn edge build_graph] in Hstep.
    destruct (generate_answer msgs (entering at_generate_answer s)) as [[update | e] s2];
      [|discriminate].
    injection Hstep as <- _ _. exact I.
  - rewrite step_eq in Hstep. cbn [node_fn edge build_graph] in Hstep.
    injection Hstep as <- _ _. exact I.
Qed.





Lemma grade_documents_target (msgs : list Message) (s s' : Sys) (n : Node) :
  grade_documents msgs s = (Ok n, s') ->
  (n = at_generate_answer /\
   exists prompt, grader_llm E prompt (world s) = (Ok "yes", world s')) \/
  n = at_rewrite_question.
Proof.
  unfold grade_documents, first_content, last_content.
  destruct msgs as [|m0 rest]; [discriminate|].
  destruct (rev (m0 :: rest)) as [|m older]; monad; [discriminate|].
  destruct (grader_llm E (GRADE_PROMPT (content m0) (content m)) (world s))
    as [[score | e] w] eqn:Hcall; [|discriminate].
  destruct (String.eqb_spec score "yes") as [-> | Hno]; intros Heq; injection Heq as <- <-.
  - left. split; [reflexivity|]. eexists. exact Hcall.
  - right. reflexivity.
Qed.

(** With a router whose every reply asks for a tool and a grader that
    never says "yes", no run comes to END. *)
Lemma never_done (limit : nat) :
  (forall msgs w c calls w',
     route_llm E msgs w = (Ok (c, calls), w') -> calls <> []) ->
  (forall prompt w w', grader_llm E prompt w <> (Ok "yes", w')) ->
  forall (n : Node) (msgs : list Message) (s : Sys),
    n <> at_END -> n <> at_generate_answer ->
    exists e, fst (run build_graph limit n msgs s) = Raise e.
Proof.
  intros Hroute Hgrade.
  induction limit as [|k IH]; intros n msgs s Hend Hgen; [eexists; reflexivity|].
  assert (Hnext : forall n1 msgs1 s1,
            step build_graph n msgs s = (Ok (n1, msgs1), s1) ->
            n1 <> at_END /\ n1 <> at_generate_answer).
  { intros n1 msgs1 s1 Hstep. destruct n; try congruence.
    - rewrite step_route in Hstep.
      destruct (route_llm E msgs (world s)) as [[[c calls] | e] w] eqn:Hcall; [|discriminate].
      injection Hstep as <- _ _. cbn [snd].
      destruct calls as [|call calls]; [|split; discriminate].
      exfalso. exact (Hroute _ _ _ _ _ Hcall eq_refl).
    - rewrite step_eq in Hstep. cbn [node_fn edge build_graph] in Hstep.
      destruct (ToolNode msgs (entering at_retrieve s)) as [[update | e] s2]; [|discriminate].
      destruct (grade_documents (msgs ++ update) s2) as [[next | e] s3] eqn:Hedge;
        [|discriminate].
      injection Hstep as <- _ _.
      destruct (grade_documents_target _ _ _ _ Hedge) as [[_ [prompt Hyes]] | ->];
        [exfalso; exact (Hgrade _ _ _ Hyes) | split; discriminate].
    - rewrite step_eq in Hstep. cbn [node_fn edge build_graph] in Hstep.
      destruct (rewrite_question msgs (entering at_rewrite_question s)) as [[update | e] s2];
        [|discriminate].
      injection Hstep as <- _ _. split; discriminate. }
  assert (Hunfold : run build_graph (S k) n msgs s
                    = bind (step build_graph n msgs)
                           (fun nm => run build_graph k (fst nm) (snd nm)) s)
    by (destruct n; try reflexivity; congruence).
  rewrite Hunfold. unfold bind.
  destruct (step build_graph n msgs s) as [[[n1 msgs1] | e] s1]; [|eexists; reflexivity].
  destruct (Hnext n1 msgs1 s1 eq_refl) as [Hend1 Hgen1].
  exact (IH n1 msgs1 s1 Hend1 Hgen1).
Qed.

(** ** How often the retriever is called *)

Lemma retrievals_app (a b : list event) :
  retrievals (a ++ b) = retrievals a + retrievals b.
Proof.
  induction a as [|ev a IH]; [reflexivity|]. destruct ev; simpl; rewrite IH; reflexivity.
Qed.

Lemma runs_of_app (n : Node) (a b : list event) :
  runs_of n (a ++ b) = runs_of n a + runs_of n b.
Proof.
  induction a as [|ev a IH]; [reflexivity|]. destruct ev; simpl; rewrite IH; lia.
Qed.

Lemma adds_bind {A B : Type} (r1 r2 : nat) (m : M A) (k : A -> M B) :
  adds r1 m -> (forall a, adds r2 (k a)) -> adds (r1 + r2) (bind m k).
Proof.
  intros Hm Hk s. unfold bind. destruct (Hm s) as [added [Hlog [Hret Hrun]]].
  destruct (m s) as [[a | e] s1]; cbn [snd] in *.
  - destruct (Hk a s1) as [more [Hlog2 [Hret2 Hrun2]]].
    exists (more ++ added)%list. split; [rewrite Hlog2, Hlog, app_assoc; reflexivity|].
    rewrite retrievals_app, runs_of_app. lia.
  - exists added. split; [exact Hlog|]. lia.
Qed.

Lemma adds_still {A : Type} (m : M A) : (forall s, log (snd (m s)) = log s) -> adds 0 m.
Proof. intros Hm s. exists []. rewrite Hm. repeat split. constructor. Qed.

Ltac adding :=
  solve [ repeat first
    [ apply adds_still; intros ?; reflexivity
    | apply (adds_bind 0 0); [|intros ?] ] ].

Lemma adds_call {A B : Type} (f : A -> World E -> result B * World E) (a : A) :
  adds 0 (call f a).
Proof.
  apply adds_still. intros s. unfold call. destruct (f a (world s)); reflexivity.
Qed.

Lemma adds_first_content (msgs : list Message) : adds 0 (first_content msgs).
Proof. unfold first_content. destruct msgs; adding. Qed.

Lemma adds_last_content (msgs : list Message) : adds 0 (last_content msgs).
Proof. unfold last_content. destruct (rev msgs); adding. Qed.

Lemma adds_logged (ev : event) :
  retrievals [ev] = 0 -> runs_of at_retrieve [ev] = 0 -> adds 0 (emit ev).
Proof.
  intros Hret Hrun s. exists [ev]. split; [reflexivity|]. split; [lia | exact Hrun].
Qed.

Lemma adds_grade_documents (msgs : list Message) : adds 0 (grade_documents msgs).
Proof.
  unfold grade_documents.
  apply (adds_bind 0 0); [apply adds_first_content | intros question].
  apply (adds_bind 0 0); [apply adds_last_content | intros context].
  apply (adds_bind 0 0); [apply adds_call | intros score].
  apply (adds_bind 0 0); [apply adds_logged; reflexivity | intros _].
  destruct (String.eqb score "yes"); adding.
Qed.

Lemma adds_node (n : Node) (msgs : list Message) :
  n <> at_retrieve -> adds 0 (node_fn build_graph n msgs).
Proof.
  intros Hn. destruct n; cbn [node_fn build_graph]; [| congruence | | | adding].
  - unfold generate_query_or_respond.
    apply (adds_bind 0 0); [apply adds_call | intros response]. adding.
  - unfold rewrite_question.
    apply (adds_bind 0 0); [apply adds_first_content | intros question].
    apply (adds_bind 0 0); [apply adds_call | intros response].
    apply (adds_bind 0 0); [apply adds_logged; reflexivity | intros _]. adding.
  - unfold generate_answer.
    apply (adds_bind 0 0); [apply adds_first_content | intros question].
    apply (adds_bind 0 0); [apply adds_last_content | intros context].
    apply (adds_bind 0 0); [apply adds_call | intros response].
    apply (adds_bind 0 0); [apply adds_logged; reflexivity | intros _]. adding.
Qed.

Lemma adds_edge (n : Node) (msgs : list Message) : adds 0 (edge build_graph n msgs).
Proof.
  destruct n; cbn [edge build_graph]; try adding.
  - unfold tools_condition. destruct (rev msgs) as [|m rest]; [adding|].
    destruct (tool_calls m); adding.
  - apply adds_grade_documents.
Qed.

Lemma retrieve_docs_log (docs : list Document) : forall s : Sys,
  log (snd (retrieve_docs docs s)) = log s.
Proof.
  induction docs as [|doc docs IH]; intros s; [reflexivity|].
  cbn [retrieve_docs]. cbv [bind]. rewrite retrieve_doc_eq.
  destruct (source_record doc) as [r | e]; [|reflexivity].
  match goal with |- context [retrieve_docs docs ?s1] =>
    specialize (IH s1); destruct (retrieve_docs docs s1) as [[lines | e] s2]
  end; exact IH.
Qed.

(** One call of the tool is at most one call of the retriever. *)
Lemma adds_run_tool (query : string) : adds 1 (run_tool query).
Proof.
  assert (Hbooks : adds 1 (retrieve_from_books query)).
  { unfold retrieve_from_books.
    apply (adds_bind 0 1); [adding | intros _].
    apply (adds_bind 1 0); [intros s; exists [EvRetrieve query]; repeat split; simpl; lia
                           | intros _].
    apply (adds_bind 0 0); [apply adds_call | intros docs].
    apply (adds_bind 0 0); [apply adds_logged; reflexivity | intros _].
    destruct docs as [|doc docs]; [adding|].
    apply (adds_bind 0 0); [|intros results; adding].
    apply adds_still. apply retrieve_docs_log. }
  assert (Hturn : forall text, adds 0 (emit (EvToolMessage text) ;;; ret (ToolMessage text)))
    by (intros text; apply (adds_bind 0 0); [apply adds_logged; reflexivity | intros _; adding]).
  intros s. unfold run_tool. destruct (Hbooks s) as [added [Hlog [Hret Hrun]]].
  destruct (retrieve_from_books query s) as [[text | e] s1]; cbn [snd] in *.
  - destruct (Hturn text s1) as [more [Hmore [Hret2 Hrun2]]].
    exists (more ++ added)%list. split; [rewrite Hmore, Hlog, app_assoc; reflexivity|].
    rewrite retrievals_app, runs_of_app. lia.
  - destruct (handle_tool_errors E e) as [text|].
    + destruct (Hturn text s1) as [more [Hmore [Hret2 Hrun2]]].
      exists (more ++ added)%list. split; [rewrite Hmore, Hlog, app_assoc; reflexivity|].
      rewrite retrievals_app, runs_of_app. lia.
    + exists added. repeat split; assumption.
Qed.

(** When every reply of the router carries at most one tool call, a
    super-step keeps the retriever's calls within the runs of the
    retrieve node. *)
Lemma step_single_calls (n : Node) (msgs : list Message) (s : Sys) :
  (forall turns w0 c calls w1,
     route_llm E turns w0 = (Ok (c, calls), w1) -> List.length calls <= 1) ->
  single n msgs ->
  retrievals (log s) <= runs_of at_retrieve (log s) ->
  retrievals (log (snd (step build_graph n msgs s)))
    <= runs_of at_retrieve (log (snd (step build_graph n msgs s))) /\
  (forall n1 msgs1 s1,
     step build_graph n msgs s = (Ok (n1, msgs1), s1) -> single n1 msgs1).
Proof.
  intros Hone Hsingle Hbound. split.
  - rewrite step_eq.
    assert (Hcount : forall (r : nat) (s0 s1 : Sys),
              (exists added, log s1 = (added ++ log s0)%list /\
                             retrievals added <= r /\ runs_of at_retrieve added = 0) ->
              retrievals (log s1) <= retrievals (log s0) + r /\
              runs_of at_retrieve (log s1) = runs_of at_retrieve (log s0)).
    { intros r s0 s1 [added [Hlog [Hret Hrun]]].
      rewrite Hlog, retrievals_app, runs_of_app. lia. }
    assert (Hedge := fun update s1 => Hcount 0 s1 _ (adds_edge n (msgs ++ update) s1)).
    destruct (Node_eqb n at_retrieve) eqn:Hnode.
    + destruct n; try discriminate. destruct (Hsingle eq_refl) as [pre [c [query ->]]].
      cbn [node_fn build_graph]. rewrite ToolNode_calls.
      assert (Htool : adds 1 (run_tools [query])).
      { intros s0. rewrite run_tools_single.
        apply (adds_bind 1 0); [apply adds_run_tool | intros m; adding]. }
      pose proof (Hcount 1 (entering at_retrieve s) _ (Htool (entering at_retrieve s)))
        as [Hret Hrun].
      cbn [entering log retrievals runs_of Node_eqb] in Hret, Hrun.
      destruct (run_tools [query] (entering at_retrieve s)) as [[update | e] s1];
        cbn [snd] in *; [|lia].
      specialize (Hedge update s1).
      destruct (edge build_graph at_retrieve ((pre ++ [AIMessage c [query]]) ++ update) s1)
        as [[next | e] s2]; cbn [snd] in *; lia.
    + assert (Hother : n <> at_retrieve) by (intros ->; discriminate).
      pose proof (Hcount 0 (entering n s) _ (adds_node n msgs Hother (entering n s)))
        as [Hret Hrun].
      assert (Hstart : retrievals (log (entering n s)) = retrievals (log s) /\
                       runs_of at_retrieve (log (entering n s))
                       = runs_of at_retrieve (log s))
        by (destruct n; try discriminate; split; reflexivity).
      destruct (node_fn build_graph n msgs (entering n s)) as [[update | e] s1];
        cbn [snd] in *; [|lia].
      specialize (Hedge update s1).
      destruct (edge build_graph n (msgs ++ update) s1) as [[next | e] s2];
        cbn [snd] in *; lia.
  - intros n1 msgs1 s1 Hstep Hn1. subst n1. destruct n.
    + rewrite step_route in Hstep.
      destruct (route_llm E msgs (world s)) as [[[c calls] | e] w] eqn:Hcall; [|discriminate].
      pose proof (Hone _ _ _ _ _ Hcall) as Hlen.
      injection Hstep as Hnext <- _. cbn [fst snd] in *.
      destruct calls as [|query [|call calls]]; [discriminate | | simpl in Hlen; lia].
      exists msgs, c, query. reflexivity.
    + rewrite step_eq in Hstep. cbn [node_fn edge build_graph] in Hstep.
      destruct (ToolNode msgs (entering at_retrieve s)) as [[update | e] s2]; [|discriminate].
      destruct (grade_documents (msgs ++ update) s2) as [[next | e] s3] eqn:Hedge;
        [|discriminate].
      injection Hstep as -> _ _.
      destruct (grade_documents_target _ _ _ _ Hedge) as [[Hgen _] | Hrew]; discriminate.
    + rewrite step_eq in Hstep. cbn [node_fn edge build_graph] in Hstep.
      destruct (rewrite_question msgs (entering at_rewrite_question s)) as [[u | e] s2];
        discriminate.
    + rewrite step_eq in Hstep. cbn [node_fn edge build_graph] in Hstep.
      destruct (generate_answer msgs (entering at_generate_answer s)) as [[u | e] s2];
        discriminate.
    + rewrite step_eq in Hstep. discriminate.
Qed.

Lemma run_single_calls (limit : nat) :
  (forall turns w0 c calls w1,
     route_llm E turns w0 = (Ok (c, calls), w1) -> List.length calls <= 1) ->
  forall (n : Node) (msgs : list Message) (s : Sys),
    single n msgs ->
    retrievals (log s) <= runs_of at_retrieve (log s) ->
    retrievals (log (snd (run build_graph limit n msgs s)))
      <= runs_of at_retrieve (log (snd (run build_graph limit n msgs s))).
Proof.
  intros Hone. induction limit as [|k IH]; intros n msgs s Hsingle Hbound; [exact Hbound|].
  destruct (Node_eqb n at_END) eqn:Hend; [destruct n; try discriminate; exact Hbound|].
  assert (Hunfold : run build_graph (S k) n msgs s
                    = bind (step build_graph n msgs)
                           (fun nm => run build_graph k (fst nm) (snd nm)) s)
    by (destruct n; try reflexivity; discriminate).
  rewrite Hunfold. unfold bind.
  destruct (step_single_calls n msgs s Hone Hsingle Hbound) as [Hstep Hnext].
  destruct (step build_graph n msgs s) as [[[n1 msgs1] | e] s1]; cbn [fst snd] in *;
    [|exact Hstep].
  exact (IH n1 msgs1 s1 (Hnext n1 msgs1 s1 eq_refl) Hstep).
Qed.

(** ** The claims *)

(** C1, as amended.  The graph has no cap on rewrite attempts; what
    bounds a run is the sequence of verdicts.  For every environment,
    question and step budget, in the log of the run: a rewrite attempt
    comes right after an irrelevant verdict (a score other than "yes")
    and only then, and only the last irrelevant verdict can still be
    waiting for its rewrite; the generator runs right after a relevant
    verdict and only then, so no generation is ever forced; the
    retrieve node never runs more than once more than the rewrite node;
    and when the graph is done every irrelevant verdict had its
    rewrite, and the graph either answered directly or generated once,
    after one more run of the retrieve node than rewrites.  A run of
    the retrieve node runs every tool call of the router's reply: when
    no reply carries more than one, the retriever is called at most
    once per run of the node.  And when every reply of the router asks
    for a tool and the grader never says "yes", the graph is never
    done, whatever the step budget: the run ends by an exception. *)
Theorem rewrite_loop_follows_verdicts
  (limit : nat) (q : string) (w : World E) (sources : list SourceRecord) :
  let out := invoke build_graph limit q (fresh w sources) in
  let lg := log (snd out) in
  (forall newer older, lg = (newer ++ EvNode at_rewrite_question :: older)%list ->
     exists c score rest, older = EvGrade q c score :: rest /\ score <> "yes") /\
  (forall newer older, lg = (newer ++ EvNode at_generate_answer :: older)%list ->
     exists c rest, older = EvGrade q c "yes" :: EvToolMessage c :: rest) /\
  runs_of at_rewrite_question lg <= irrelevant_verdicts lg
    <= runs_of at_rewrite_question lg + 1 /\
  runs_of at_retrieve lg <= runs_of at_rewrite_question lg + 1 /\
  runs_of at_generate_answer lg <= 1 /\
  (forall msgs, fst out = Ok msgs ->
     runs_of at_rewrite_question lg = irrelevant_verdicts lg /\
     ((runs_of at_retrieve lg = runs_of at_rewrite_question lg /\
       runs_of at_generate_answer lg = 0) \/
      (runs_of at_retrieve lg = runs_of at_rewrite_question lg + 1 /\
       runs_of at_generate_answer lg = 1))) /\
  ((forall msgs w0 c calls w1,
      route_llm E msgs w0 = (Ok (c, calls), w1) -> List.length calls <= 1) ->
   retrievals lg <= runs_of at_retrieve lg) /\
  ((forall msgs w0 c calls w1,
      route_llm E msgs w0 = (Ok (c, calls), w1) -> calls <> []) ->
   (forall prompt w0 w1, grader_llm E prompt w0 <> (Ok "yes", w1)) ->
   exists e, fst out = Raise e).
Proof.
  cbv zeta. destruct (invoke_log limit q w sources) as [[Hwf [HR [HG HI]]] Hdone].
  split; [intros newer older Hlg; exact (log_wf_follows q newer _ _ _ Hwf Hlg)|].
  split; [intros newer older Hlg; exact (log_wf_follows q newer _ _ _ Hwf Hlg)|].
  split; [exact HI|]. split; [exact HR|]. split; [exact HG|].
  split; [|split].
  - intros msgs Hok. destruct (Hdone msgs Hok) as [_ [_ [_ [Hirr Hbal]]]].
    split; [symmetry; exact Hirr | exact Hbal].
  - intros Hone. unfold invoke.
    apply (run_single_calls limit Hone); [discriminate | apply Nat.le_refl].
  - intros Hroute Hgrade. unfold invoke.
    apply (never_done limit Hroute Hgrade); discriminate.
Qed.

(** C2, as amended.  The grader's verdict is read by comparison with
    "yes" alone: when the structured output's binary_score is "yes" the
    edge goes to generate_answer, and for every other string, "no" or
    not, it goes to rewrite_question.  No score makes the call fail. *)
Theorem grade_documents_compares_with_yes
  (q : string) (pre : list Message) (m : Message) (s : Sys) (score : string) (w' : World E) :
  grader_llm E (GRADE_PROMPT q (content m)) (world s) = (Ok score, w') ->
  exists s',
    grade_documents (HumanMessage q :: pre ++ [m]) s =
      (Ok (if String.eqb score "yes" then at_generate_answer else at_rewrite_question), s') /\
    (score = "yes" -> grade_documents (HumanMessage q :: pre ++ [m]) s = (Ok at_generate_answer, s')) /\
    (score <> "yes" -> grade_documents (HumanMessage q :: pre ++ [m]) s = (Ok at_rewrite_question, s')).
Proof.
  intros Hgrader.
  assert (Hsnoc : HumanMessage q :: (pre ++ [m])%list = ((HumanMessage q :: pre) ++ [m])%list)
    by reflexivity.
  rewrite (@grade_documents_eq _ _ _ _ s Hsnoc). cbn [content HumanMessage].
  rewrite Hgrader. eexists. split; [reflexivity|].
  destruct (String.eqb_spec score "yes") as [Hyes | Hno]; split; intros H;
    try reflexivity; contradiction.
Qed.

Lemma last_content_state (msgs : list Message) (s : Sys) :
  snd (last_content msgs s) = s.
Proof. unfold last_content. destruct (rev msgs); reflexivity. Qed.

Lemma frame_assemble (request : QuestionRequest) (result : list Message) :
  frame (assemble request result).
Proof.
  unfold assemble. apply frame_bind; [apply frame_last_content | intros final].
  destruct (String.eqb final ""); [framing|].
  apply frame_bind; [apply frame_get_sources | intros sources].
  destruct (truthy (include_sources request)); [|framing].
  destruct sources; framing.
Qed.

Lemma assemble_sources (request : QuestionRequest) (result : list Message) (s : Sys) :
  forall resp docs,
    fst (assemble request result s) = Ok (inr resp) -> resp_sources resp = Some docs ->
    source_documents (retrieved_sources s) = Ok docs.
Proof.
  intros resp docs. unfold assemble. unfold bind at 1.
  pose proof (last_content_state result s) as Hstate.
  destruct (last_content result s) as [[final | e] s1]; cbn [snd] in Hstate; subst s1;
    [|discriminate].
  destruct (String.eqb final ""); [discriminate|].
  cbv [bind get_sources ret lift]. cbn [fst snd].
  destruct (truthy (include_sources request)).
  - destruct (retrieved_sources s) as [|r rs] eqn:Hsrc.
    + cbn [fst]. intros Heq Hsome. injection Heq as <-. discriminate.
    + destruct (source_documents (r :: rs)) as [ds | e]; cbn [fst]; [|discriminate].
      intros Heq Hsome. injection Heq as <-. cbn [resp_sources] in Hsome.
      injection Hsome as <-. reflexivity.
  - destruct (retrieved_sources s); cbn [fst]; intros Heq Hsome; injection Heq as <-;
      discriminate.
Qed.

(** C3, as amended.  The list is a module global that every request
    clears first: whatever earlier requests left in it, the response and
    the process after the request are the same as from an empty list.
    And every source in a response was built from a document that a
    retrieval call of this very request returned.  So requests served
    one after the other never see each other's sources. *)
Theorem response_sources_are_own
  (limit : nat) (request : QuestionRequest) (s : Sys) :
  ask_question limit request s = ask_question limit request (cleared s) /\
  exists added,
    log (snd (ask_question limit request s)) = (added ++ log s)%list /\
    forall resp docs d,
      fst (ask_question limit request s) = inr resp ->
      resp_sources resp = Some docs -> In d docs ->
      exists retrieved doc r,
        In (EvRetrieved retrieved) added /\ In doc retrieved /\
        source_record doc = Ok r /\ SourceDocument_of r = Ok d.
Proof.
  split; [reflexivity|].
  assert (Hstart : provenance (log s) (cleared s))
    by (exists []; split; [reflexivity | intros r []]).
  pose proof (preserves_run (log s) limit (entry build_graph)
                [HumanMessage (question request)] (cleared s) Hstart) as Hrun.
  unfold ask_question, ask_body. cbv [bind set_sources]. fold (cleared s).
  unfold invoke.
  destruct (run build_graph limit (entry build_graph) [HumanMessage (question request)]
              (cleared s)) as [[result | e] s1]; cbn [snd] in Hrun.
  - destruct Hrun as [added [Hlog Hsrc]].
    destruct (frame_assemble request result s1) as [_ [more Hmore]].
    pose proof (assemble_sources request result s1) as Hdocs.
    destruct (assemble request result s1) as [r s2]; cbn [fst snd] in *.
    exists (more ++ added)%list. split; [rewrite Hmore, Hlog, app_assoc; reflexivity|].
    intros resp docs d Hresp Hsome Hin.
    destruct r as [out | e]; cbn [surface] in Hresp; [|discriminate]. subst out.
    specialize (Hdocs resp docs eq_refl Hsome).
    destruct (source_documents_from _ _ Hdocs d Hin) as [r [Hr Hd]].
    destruct (Hsrc r Hr) as [retrieved [doc [Hev [Hdoc Hrec]]]].
    exists retrieved, doc, r.
    split; [apply in_or_app; right; exact Hev|]. repeat split; assumption.
  - destruct Hrun as [added [Hlog _]]. exists added. split; [exact Hlog|].
    intros resp docs d Hresp. discriminate.
Qed.

Lemma rewrite_events_on_question (q : string) (lg : list event) :
  log_wf q lg -> forall q' r, In (EvRewrite q' r) lg -> q' = q.
Proof.
  intros Hwf q' r Hin. apply in_split in Hin. destruct Hin as [newer [older Hlg]].
  exact (proj1 (log_wf_follows q newer _ _ _ Hwf Hlg)).
Qed.

(** C4.  At every point of a request the first turn is the user's
    question [q], and every call of the rewriter was made on [q]; the
    rewrite node itself formats its prompt from turn 0 and appends the
    model's reply as one new user-role turn, leaving the turns before it
    as they were. *)
Theorem rewriter_reads_turn_zero
  (k : nat) (q : string) (w : World E) (sources : list SourceRecord) :
  (match steps build_graph k (entry build_graph) [HumanMessage q] (fresh w sources) with
   | (Ok nm, s') =>
       (exists rest, snd nm = HumanMessage q :: rest) /\
       (forall q' r, In (EvRewrite q' r) (log s') -> q' = q)
   | (Raise e, s') => forall q' r, In (EvRewrite q' r) (log s') -> q' = q
   end) /\
  (forall rest s,
     match step build_graph at_rewrite_question (HumanMessage q :: rest) s with
     | (Ok nm, s') =>
         exists r,
           llm_invoke E (REWRITE_PROMPT q) (world s) = (Ok r, world s') /\
           fst nm = at_generate_query_or_respond /\
           snd nm = (HumanMessage q :: rest ++ [HumanMessage r])%list /\
           log s' = EvRewrite q r :: EvNode at_rewrite_question :: log s
     | (Raise e, s') => llm_invoke E (REWRITE_PROMPT q) (world s) = (Raise e, world s')
     end).
Proof.
  split.
  - pose proof (steps_preserves q k (entry build_graph) [HumanMessage q]
                  (fresh w sources) (Inv_init q)) as Hsteps.
    destruct (steps build_graph k (entry build_graph) [HumanMessage q] (fresh w sources))
      as [[nm | e] s'].
    + destruct Hsteps as [Hturn [Hwf _]]. split; [exact Hturn|].
      exact (rewrite_events_on_question q _ Hwf).
    + exact (rewrite_events_on_question q _ (proj1 Hsteps)).
  - intros rest s. rewrite step_rewrite. cbn [content HumanMessage].
    destruct (llm_invoke E (REWRITE_PROMPT q) (world s)) as [[r | e] w1]; cbn [world].
    + exists r. repeat split.
    + reflexivity.
Qed.

(** C5.  When the router's reply to the question carries no tool call,
    the run is the routing node alone: the retriever is never called,
    the graph goes from the routing node to END, and the response (for
    every value of include_sources) is the reply's text with no sources;
    an empty reply gives the handler's own error instead.  The run is
    one super-step, which every step budget of 2 or more allows (the
    runtime's default is 25). *)
Theorem direct_response_has_no_sources
  (limit : nat) (request : QuestionRequest) (s : Sys) (c : string) (w' : World E) :
  route_llm E [HumanMessage (question request)] (world s) = (Ok (c, []), w') ->
  ask_question (S (S limit)) request s =
    ((if String.eqb c "" then inl FAILED_TO_GENERATE
      else inr (mkQuestionResponse (question request) c None)),
     mkSys w' [] (EvNode at_generate_query_or_respond :: log s)) /\
  retrievals (log (snd (ask_question (S (S limit)) request s))) = retrievals (log s).
Proof.
  intros Hroute.
  assert (Heq : ask_question (S (S limit)) request s =
    ((if String.eqb c "" then inl FAILED_TO_GENERATE
      else inr (mkQuestionResponse (question request) c None)),
     mkSys w' [] (EvNode at_generate_query_or_respond :: log s))).
  { unfold ask_question, ask_body, invoke. cbn [entry build_graph run].
    cbv [bind set_sources]. rewrite step_route. cbn [world retrieved_sources log].
    rewrite Hroute. cbn [fst snd run]. unfold ret, assemble. cbv [bind].
    unfold last_content. cbn [app rev fst snd content AIMessage]. unfold ret.
    destruct (String.eqb c ""); [reflexivity|].
    cbv [get_sources ret]. cbn [retrieved_sources].
    destruct (truthy (include_sources request)); reflexivity. }
  split; [exact Heq|]. rewrite Heq. reflexivity.
Qed.


Lemma retrieve_from_books_empty (query : string) (s : Sys) (w1 : World E) :
  retriever_invoke E query (world s) = (Ok [], w1) ->
  retrieve_from_books query s
  = (Ok NO_RESULTS, mkSys w1 [] (EvRetrieved [] :: EvRetrieve query :: log s)).
Proof.
  intros Hret. unfold retrieve_from_books. monad. rewrite Hret. reflexivity.
Qed.

(** The retrieve step on a single tool call whose tool returns [text]. *)
Lemma step_retrieve_single
  (m0 : Message) (rest : list Message) (c query text : string) (s s2 : Sys) :
  retrieve_from_books query
    (mkSys (world s) (retrieved_sources s) (EvNode at_retrieve :: log s)) = (Ok text, s2) ->
  step build_graph at_retrieve (m0 :: rest ++ [AIMessage c [query]]) s =
  match grader_llm E (GRADE_PROMPT (content m0) text) (world s2) with
  | (Ok score, w) =>
      (Ok (if String.eqb score "yes" then at_generate_answer else at_rewrite_question,
           ((m0 :: rest ++ [AIMessage c [query]]) ++ [ToolMessage text])%list),
       mkSys w (retrieved_sources s2)
         (EvGrade (content m0) text score :: EvToolMessage text :: log s2))
  | (Raise e, w) =>
      (Raise e, mkSys w (retrieved_sources s2) (EvToolMessage text :: log s2))
  end.
Proof.
  intros Htool.
  assert (Hnode : forall s0, ToolNode (m0 :: rest ++ [AIMessage c [query]]) s0
                             = run_tools [query] s0).
  { intros s0. unfold ToolNode.
    change (m0 :: rest ++ [AIMessage c [query]])%list
      with ((m0 :: rest) ++ [AIMessage c [query]])%list.
    rewrite rev_unit. reflexivity. }
  unfold step, build_graph; cbn [node_fn edge]. cbv [bind emit]. rewrite Hnode.
  rewrite run_tools_single. cbv [bind]. unfold run_tool. rewrite Htool. cbv [bind emit ret].
  assert (Hsnoc : ((m0 :: rest ++ [AIMessage c [query]]) ++ [ToolMessage text])%list
                  = m0 :: (rest ++ [AIMessage c [query]; ToolMessage text])%list)
    by (simpl; rewrite <- app_assoc; reflexivity).
  assert (Hlast : m0 :: (rest ++ [AIMessage c [query]; ToolMessage text])%list
                  = ((m0 :: rest ++ [AIMessage c [query]]) ++ [ToolMessage text])%list)
    by (symmetry; exact Hsnoc).
  rewrite Hsnoc at 1.
  rewrite (@grade_documents_eq _ _ _ _
             (mkSys (world s2) (retrieved_sources s2) (EvToolMessage text :: log s2)) Hlast).
  cbn [world retrieved_sources log content ToolMessage].
  destruct (grader_llm E (GRADE_PROMPT (content m0) text) (world s2)) as [[score | e] w];
    reflexivity.
Qed.

(** C7.  When the similarity search returns no document, the tool
    returns the marker "No relevant information found in the books.",
    the retrieve node appends it as a tool-result turn, and the grader
    is consulted on it: the step ends as the grader says, on
    generate_answer or rewrite_question, and raises only if the grader
    itself does. *)
Theorem empty_retrieval_is_graded
  (q c query : string) (rest : list Message) (s : Sys) (w1 : World E) :
  retriever_invoke E query (world s) = (Ok [], w1) ->
  retrieve_from_books query s
  = (Ok NO_RESULTS, mkSys w1 [] (EvRetrieved [] :: EvRetrieve query :: log s)) /\
  step build_graph at_retrieve (HumanMessage q :: rest ++ [AIMessage c [query]]) s =
  match grader_llm E (GRADE_PROMPT q NO_RESULTS) w1 with
  | (Ok score, w2) =>
      (Ok (if String.eqb score "yes" then at_generate_answer else at_rewrite_question,
           ((HumanMessage q :: rest ++ [AIMessage c [query]]) ++ [ToolMessage NO_RESULTS])%list),
       mkSys w2 []
         (EvGrade q NO_RESULTS score :: EvToolMessage NO_RESULTS :: EvRetrieved []
            :: EvRetrieve query :: EvNode at_retrieve :: log s))
  | (Raise e, w2) =>
      (Raise e,
       mkSys w2 []
         (EvToolMessage NO_RESULTS :: EvRetrieved [] :: EvRetrieve query
            :: EvNode at_retrieve :: log s))
  end.
Proof.
  intros Hret. split; [exact (retrieve_from_books_empty query s w1 Hret)|].
  rewrite (step_retrieve_single (HumanMessage q) rest c query NO_RESULTS s
             (mkSys w1 [] (EvRetrieved [] :: EvRetrieve query :: EvNode at_retrieve :: log s))).
  - reflexivity.
  - apply (retrieve_from_books_empty query
             (mkSys (world s) (retrieved_sources s) (EvNode at_retrieve :: log s))).
    exact Hret.
Qed.

(** C8.  The preview stored for a retrieved passage is the passage's
    text when it has at most 200 characters; when it is longer, the
    preview is its first 200 characters, a prefix of the text, followed
    by the marker "...". *)
Theorem preview_is_capped_prefix (doc : Document) (r : SourceRecord) :
  source_record doc = Ok r ->
  (String.length (page_content doc) <= 200 ->
   rec_content_preview r = page_content doc) /\
  (200 < String.length (page_content doc) ->
   exists head rest,
     page_content doc = head ++ rest /\ String.length head = 200 /\
     prefix head (page_content doc) = true /\
     rec_content_preview r = head ++ "...").
Proof.
  unfold source_record. destruct (page_of (doc_page doc)) as [n | e]; [|discriminate].
  intros Heq. injection Heq as <-. cbn [rec_content_preview]. unfold preview_of.
  split; intros Hlen.
  - destruct (Nat.ltb_spec 200 (String.length (page_content doc))); [lia | reflexivity].
  - destruct (Nat.ltb_spec 200 (String.length (page_content doc))); [|lia].
    destruct (slice_to_split 200 (page_content doc)) as [rest [Hsplit Hhead]]; [lia|].
    exists (slice_to 200 (page_content doc)), rest.
    split; [exact Hsplit|]. split; [exact Hhead|]. split; [|reflexivity].
    rewrite Hsplit at 2. apply prefix_append.
Qed.





(** The page of a source record.  For every retrieved document whose
    page entry is not a NaN or infinite float, the source record is
    built and its page is an integer: an integer entry as it is, a
    boolean as 0 or 1, a finite float cut toward zero, and 0 for any
    other entry or when the entry is missing. *)
Theorem page_is_integer (doc : Document) :
  finite_value (doc_page doc) = true ->
  exists r,
    source_record doc = Ok r /\
    rec_page r = page_number (doc_page doc) /\
    (is_int_or_float (doc_page doc) = false -> rec_page r = 0%Z).
Proof.
  intros Hfin. unfold source_record. rewrite (page_of_finite _ Hfin).
  eexists. split; [reflexivity|]. split; [reflexivity|].
  cbn [rec_page]. unfold is_int_or_float.
  destruct (doc_page doc); cbn [as_number page_number]; intros Hno;
    try discriminate; reflexivity.
Qed.

Lemma handler_runs_ask_question (limit : nat) (request : QuestionRequest) (s : Sys) :
  forall other : Handler,
    interleave limit [true; true; true] (before_reset request) other s =
    (returned (fst (ask_question limit request s)), other,
     snd (ask_question limit request s)).
Proof.
  intros other. unfold ask_question, ask_body.
  cbn [interleave]. unfold handler_step at 1. cbv [bind set_sources].
  unfold handler_step at 1.
  destruct (invoke build_graph limit (question request) (mkSys (world s) [] (log s)))
    as [[result | e] s1]; cbn [handler_step].
  - destruct (assemble request result s1) as [r s2]. reflexivity.
  - reflexivity.
Qed.

(** * More properties of the code *)

(** ** The tool's loop over the documents *)

Lemma retrieve_docs_ok (docs : list Document) (records : list SourceRecord) :
  records_of docs records ->
  forall s : Sys,
    retrieve_docs docs s =
    (Ok (map passage_line docs),
     mkSys (world s) (retrieved_sources s ++ records) (log s)).
Proof.
  induction 1 as [|doc r docs records Hrec _ IH]; intros s.
  - simpl. unfold ret. rewrite app_nil_r. destruct s; reflexivity.
  - cbn [retrieve_docs map]. unfold bind at 1. unfold retrieve_doc.
    cbv [bind lift append_source ret]. rewrite Hrec. cbn [world retrieved_sources log].
    rewrite IH. cbn [world retrieved_sources log]. rewrite <- app_assoc. reflexivity.
Qed.

Lemma retrieve_docs_fails
  (pre post : list Document) (bad : Document) (records : list SourceRecord) (e : exn) :
  records_of pre records -> source_record bad = Raise e ->
  forall s : Sys,
    retrieve_docs (pre ++ bad :: post) s =
    (Raise e, mkSys (world s) (retrieved_sources s ++ records) (log s)).
Proof.
  intros Hpre Hbad. induction Hpre as [|doc r pre records Hrec _ IH]; intros s.
  - cbn [app retrieve_docs]. unfold bind at 1. unfold retrieve_doc.
    cbv [bind lift]. rewrite Hbad. rewrite app_nil_r. destruct s; reflexivity.
  - cbn [app retrieve_docs]. unfold bind at 1. unfold retrieve_doc.
    cbv [bind lift append_source ret]. rewrite Hrec. cbn [world retrieved_sources log].
    rewrite IH. cbn [world retrieved_sources log]. rewrite <- app_assoc. reflexivity.
Qed.

(** Either every document gives a record, or there is a first one that
    does not. *)
Lemma records_or_failure (docs : list Document) :
  (exists records, records_of docs records) \/
  (exists pre bad post records e,
     docs = (pre ++ bad :: post)%list /\ records_of pre records /\
     source_record bad = Raise e).
Proof.
  induction docs as [|doc docs IH]; [left; exists []; constructor|].
  destruct (source_record doc) as [r | e] eqn:Hrec.
  - destruct IH as [[records Hall] | [pre [bad [post [records [e [Hdocs [Hpre Hbad]]]]]]]].
    + left. exists (r :: records). constructor; assumption.
    + right. exists (doc :: pre), bad, post, (r :: records), e.
      split; [rewrite Hdocs; reflexivity|]. split; [constructor; assumption | exact Hbad].
  - right. exists [], doc, docs, [], e. split; [reflexivity|]. split; [constructor | exact Hrec].
Qed.

(** X1.  When the search returns documents whose records can all be
    built, the tool leaves in the global exactly one record per
    document, in the order of the search results, whatever the global
    held before, and returns the passages in that same order joined by
    the separator (the marker text if there is no document). *)
Theorem retrieval_records_every_document
  (query : string) (s : Sys) (docs : list Document) (w : World E)
  (records : list SourceRecord) :
  retriever_invoke E query (world s) = (Ok docs, w) ->
  records_of docs records ->
  retrieve_from_books query s =
  (Ok (match docs with
       | [] => NO_RESULTS
       | _ :: _ => String.concat SEPARATOR (map passage_line docs)
       end),
   mkSys w records (EvRetrieved docs :: EvRetrieve query :: log s)) /\
  List.length records = List.length docs.
Proof.
  intros Hret Hall. split; [|symmetry; exact (Forall2_length Hall)].
  unfold retrieve_from_books. monad. rewrite Hret.
  destruct docs as [|doc docs].
  - inversion Hall. reflexivity.
  - rewrite (retrieve_docs_ok _ _ Hall). reflexivity.
Qed.

(** X2.  When the record of one of the documents cannot be built, the
    tool raises that document's exception, and the global is left with
    the records of the documents ranked before it: no text is returned
    and the later documents are not looked at. *)
Theorem retrieval_failure_leaves_partial_records
  (query : string) (s : Sys) (pre post : list Document) (bad : Document) (w : World E)
  (records : list SourceRecord) (e : exn) :
  retriever_invoke E query (world s) = (Ok (pre ++ bad :: post)%list, w) ->
  records_of pre records ->
  source_record bad = Raise e ->
  retrieve_from_books query s =
  (Raise e,
   mkSys w records (EvRetrieved (pre ++ bad :: post)%list :: EvRetrieve query :: log s)).
Proof.
  intros Hret Hpre Hbad. unfold retrieve_from_books. monad. rewrite Hret.
  destruct (pre ++ bad :: post)%list as [|doc docs] eqn:Hdocs;
    [destruct pre; discriminate|].
  rewrite <- Hdocs. rewrite (retrieve_docs_fails pre post bad records e Hpre Hbad).
  reflexivity.
Qed.

(** X3.  The tool of [rag.py] and the tool of [api.py] agree: for the
    same query in the same world, whenever the API's tool returns a
    text the CLI's tool returns the same text; the CLI's tool never
    touches the list of sources; and it returns a text for every
    result of the search, also for documents on which the API's tool
    raises, since it builds no record. *)
Theorem rag_tool_returns_the_same_text (query : string) (s : Sys) :
  retrieved_sources (snd (rag_retrieve_from_books query s)) = retrieved_sources s /\
  (forall text s1,
     retrieve_from_books query s = (Ok text, s1) ->
     rag_retrieve_from_books query s
     = (Ok text, mkSys (world s1) (retrieved_sources s) (log s1))) /\
  (forall docs w,
     retriever_invoke E query (world s) = (Ok docs, w) ->
     fst (rag_retrieve_from_books query s)
     = Ok (match docs with
           | [] => NO_RESULTS
           | _ :: _ => String.concat SEPARATOR (map passage_line docs)
           end)).
Proof.
  unfold rag_retrieve_from_books, retrieve_from_books. monad.
  destruct (retriever_invoke E query (world s)) as [[docs | e] w].
  - split; [destruct docs; reflexivity|]. split.
    + intros text s1. destruct docs as [|doc docs].
      * intros Heq. injection Heq as <- <-. reflexivity.
      * destruct (records_or_failure (doc :: docs))
          as [[records Hall] | [pre [bad [post [records [e [Hdocs [Hpre Hbad]]]]]]]].
        -- rewrite (retrieve_docs_ok _ _ Hall). cbn [world retrieved_sources log].
           intros Heq. injection Heq as <- <-. reflexivity.
        -- rewrite Hdocs at 1. rewrite (retrieve_docs_fails pre post bad records e Hpre Hbad).
           discriminate.
    + intros docs' w' Heq. injection Heq as <- _. destruct docs; reflexivity.
  - split; [reflexivity|]. split; [discriminate|]. intros docs w' Heq. discriminate.
Qed.

(** ** How a run ends *)

(** One super-step from a node other than END: turns are appended, and
    if the step leads to END the one appended turn is the model's
    reply, the router's or the generator's. *)
Lemma step_outcome
  (n n1 : Node) (m0 : Message) (rest msgs1 : list Message) (s s1 : Sys) :
  n <> at_END -> ready n (m0 :: rest) ->
  step build_graph n (m0 :: rest) s = (Ok (n1, msgs1), s1) ->
  exists update,
    msgs1 = (m0 :: rest ++ update)%list /\
    (n1 = at_END ->
     exists c,
       update = [AIMessage c []] /\
       ((exists w, route_llm E (m0 :: rest) w = (Ok (c, []), world s1)) \/
        (exists w pre context,
           m0 :: rest = (pre ++ [ToolMessage context])%list /\
           llm_invoke E (GENERATE_PROMPT (content m0) context) w = (Ok c, world s1)))).
Proof.
  intros Hn Hready Hstep. destruct n; [| | | |congruence].
  - rewrite step_route in Hstep.
    destruct (route_llm E (m0 :: rest) (world s)) as [[[c calls] | e] w] eqn:Hroute;
      [|discriminate].
    injection Hstep as <- <- <-. cbn [fst snd].
    exists [AIMessage c calls]. split; [reflexivity|].
    destruct calls as [|call calls]; [|discriminate]. intros _.
    exists c. split; [reflexivity|]. left. exists (world s). exact Hroute.
  - destruct (step_retrieve_returns _ _ _ _ _ _ Hready Hstep)
      as [turns [text [s_mid [score [_ [-> [_ [-> _]]]]]]]].
    exists (turns ++ [ToolMessage text])%list. split; [reflexivity|].
    destruct (String.eqb score "yes"); discriminate.
  - rewrite step_rewrite in Hstep.
    destruct (llm_invoke E (REWRITE_PROMPT (content m0)) (world s)) as [[r | e] w];
      [|discriminate].
    injection Hstep as <- <- _. exists [HumanMessage r]. split; [reflexivity | discriminate].
  - destruct Hready as [pre [context Hsnoc]].
    rewrite (@step_generate _ _ _ _ s Hsnoc) in Hstep. cbn [content ToolMessage] in Hstep.
    destruct (llm_invoke E (GENERATE_PROMPT (content m0) context) (world s))
      as [[a | e] w] eqn:Hcall; [|discriminate].
    injection Hstep as _ <- <-. exists [AIMessage a []]. split; [reflexivity|].
    intros _. exists a. split; [reflexivity|]. right.
    exists (world s), pre, context. split; [exact Hsnoc | exact Hcall].
Qed.

Lemma run_finished (m0 : Message) (limit : nat) :
  forall (n : Node) (rest msgs' : list Message) (s s' : Sys),
    n <> at_END -> ready n (m0 :: rest) ->
    run build_graph limit n (m0 :: rest) s = (Ok msgs', s') ->
    finished m0 rest msgs' s'.
Proof.
  induction limit as [|k IH]; intros n rest msgs' s s' Hn Hready Hrun; [discriminate|].
  assert (Hunfold : run build_graph (S k) n (m0 :: rest) s
                    = bind (step build_graph n (m0 :: rest))
                           (fun nm => run build_graph k (fst nm) (snd nm)) s)
    by (destruct n; try reflexivity; congruence).
  rewrite Hunfold in Hrun. unfold bind in Hrun.
  destruct (step build_graph n (m0 :: rest) s) as [[[n1 msgs1] | e] s1] eqn:Hstep;
    [|discriminate].
  cbn [fst snd] in Hrun.
  pose proof (step_ready _ _ _ _ _ _ Hready Hstep) as Hready1.
  destruct (step_outcome _ _ _ _ _ _ _ Hn Hready Hstep) as [update [Hmsgs Hend]]. subst msgs1.
  destruct n1.
  1-4: (match type of Hrun with run _ _ ?n1 _ _ = _ =>
          assert (Hn1 : n1 <> at_END) by discriminate end;
        destruct (IH _ _ _ _ _ Hn1 Hready1 Hrun) as [mid [c [Hturns Hreply]]];
        exists (update ++ mid)%list, c;
        split; [rewrite Hturns, <- !app_assoc; reflexivity|];
        rewrite app_assoc; exact Hreply).
  destruct k as [|k]; [discriminate|].
  rewrite run_END in Hrun. injection Hrun as <- <-.
  destruct (Hend eq_refl) as [c [-> Hreply]].
  exists [], c. split; [reflexivity|]. rewrite app_nil_r. exact Hreply.
Qed.

Lemma assemble_state (request : QuestionRequest) (result : list Message) (s : Sys) :
  snd (assemble request result s) = s.
Proof.
  unfold assemble. unfold bind at 1. pose proof (last_content_state result s) as Hstate.
  destruct (last_content result s) as [[final | e] s1]; cbn [snd] in *; subst s1;
    [|reflexivity].
  destruct (String.eqb final ""); [reflexivity|]. cbv [bind get_sources ret lift].
  destruct (truthy (include_sources request)); [|reflexivity].
  destruct (retrieved_sources s); [reflexivity|].
  match goal with |- context [source_documents ?l] => destruct (source_documents l) end;
    reflexivity.
Qed.

Lemma assemble_answer
  (request : QuestionRequest) (pre : list Message) (m : Message) (s : Sys)
  (resp : QuestionResponse) :
  fst (assemble request (pre ++ [m]) s) = Ok (inr resp) ->
  resp_question resp = question request /\ resp_answer resp = content m /\
  content m <> "".
Proof.
  unfold assemble. unfold bind at 1. rewrite last_content_snoc.
  destruct (String.eqb_spec (content m) "") as [Hempty | Hfull]; [discriminate|].
  cbv [bind get_sources ret lift]. cbn [fst snd].
  destruct (truthy (include_sources request)).
  - destruct (retrieved_sources s) as [|r rs]; cbn [fst].
    + intros Heq. injection Heq as <-. repeat split. exact Hfull.
    + destruct (source_documents (r :: rs)); cbn [fst]; [|discriminate].
      intros Heq. injection Heq as <-. repeat split. exact Hfull.
  - destruct (retrieved_sources s); cbn [fst]; intros Heq; injection Heq as <-;
      repeat split; exact Hfull.
Qed.

(** X4.  The answer of a response is always a reply of the model to
    this request, the last turn of the graph run: either the router's
    reply, with no tool call, to all the turns before it, or the
    generator's reply to the prompt formatted from the request's
    question and from the tool-result turn right before it.  It is
    never a tool result, a rewritten query or the question itself. *)
Theorem answer_is_a_model_reply
  (limit : nat) (request : QuestionRequest) (s s' : Sys) (resp : QuestionResponse) :
  ask_question limit request s = (inr resp, s') ->
  exists mid,
    invoke build_graph limit (question request) (cleared s)
    = (Ok (HumanMessage (question request) :: mid ++ [AIMessage (resp_answer resp) []])%list,
       s') /\
    ((exists w,
        route_llm E (HumanMessage (question request) :: mid) w
          = (Ok (resp_answer resp, []), world s')) \/
     (exists w pre context,
        HumanMessage (question request) :: mid = (pre ++ [ToolMessage context])%list /\
        llm_invoke E (GENERATE_PROMPT (question request) context) w
          = (Ok (resp_answer resp), world s'))).
Proof.
  unfold ask_question, ask_body. cbv [bind set_sources].
  change (mkSys (world s) [] (log s)) with (cleared s). unfold invoke. cbn [entry build_graph].
  destruct (run build_graph limit at_generate_query_or_respond
              [HumanMessage (question request)] (cleared s))
    as [[result | e] s1] eqn:Hrun; [|discriminate].
  assert (Hfirst : at_generate_query_or_respond <> at_END) by discriminate.
  destruct (run_finished _ _ _ _ _ _ _ Hfirst I Hrun) as [mid [c [Hturns Hreply]]].
  pose proof (assemble_state request result s1) as Hstate.
  pose proof (assemble_answer request (HumanMessage (question request) :: mid)
                (AIMessage c []) s1) as Hanswer.
  assert (Hresult : result = ((HumanMessage (question request) :: mid) ++ [AIMessage c []])%list)
    by (rewrite Hturns; reflexivity).
  rewrite <- Hresult in Hanswer.
  destruct (assemble request result s1) as [r s2]; cbn [fst snd] in *. subst s2.
  intros Heq. injection Heq as Hout <-.
  destruct r as [out | e]; cbn [surface] in Hout; [|discriminate]. subst out.
  destruct (Hanswer resp eq_refl) as [_ [-> _]]. cbn [content AIMessage HumanMessage] in *.
  exists mid. split; [rewrite Hturns; reflexivity | exact Hreply].
Qed.

(** X5.  The two outcomes of the handler.  A response repeats the
    request's question, its answer is never the empty string, and it
    carries sources only when include_sources is true, and then at
    least one.  An error always has status 500. *)
Theorem outcome_shape (limit : nat) (request : QuestionRequest) (s : Sys) :
  match fst (ask_question limit request s) with
  | inr resp =>
      resp_question resp = question request /\
      resp_answer resp <> "" /\
      (resp_sources resp = None \/
       (include_sources request = Some true /\
        exists d ds, resp_sources resp = Some (d :: ds)))
  | inl h => status_code h = 500%Z
  end.
Proof.
  unfold ask_question, ask_body. cbv [bind set_sources].
  destruct (invoke build_graph limit (question request) (mkSys (world s) [] (log s)))
    as [[result | e] s1]; [|reflexivity].
  unfold assemble. unfold bind at 1.
  pose proof (last_content_state result s1) as Hstate.
  destruct (last_content result s1) as [[final | e] s2]; cbn [snd] in Hstate; subst s2;
    [|reflexivity].
  destruct (String.eqb_spec final "") as [Hempty | Hfull]; [reflexivity|].
  cbv [bind get_sources ret lift]. cbn [fst snd].
  destruct (include_sources request) as [[|]|] eqn:Hflag; cbn [truthy].
  - destruct (retrieved_sources s1) as [|r rs]; cbn [fst surface].
    + repeat split; [exact Hfull | left; reflexivity].
    + cbn [source_documents]. destruct (SourceDocument_of r) as [d | e]; [|reflexivity].
      destruct (source_documents rs) as [ds | e]; [|reflexivity].
      cbn [fst surface]. repeat split; [exact Hfull|].
      right. split; [reflexivity | exists d, ds; reflexivity].
  - destruct (retrieved_sources s1); cbn [fst surface]; repeat split;
      try exact Hfull; left; reflexivity.
  - destruct (retrieved_sources s1); cbn [fst surface]; repeat split;
      try exact Hfull; left; reflexivity.
Qed.

(** ** Which retrieval the sources are from *)








End Graph.

Arguments world {E} _.
Arguments retrieved_sources {E} _.
Arguments log {E} _.

(** * The graph on scripted collaborators *)

(** ** A run that never meets a relevant verdict *)

Lemma stubborn_route (msgs : list Message) (s : Sys stubborn) :
  step stubborn (build_graph stubborn) at_generate_query_or_respond msgs s =
  (Ok (at_retrieve, (msgs ++ [AIMessage "" ["osmosis"]])%list),
   mkSys stubborn (world s) (retrieved_sources s)
         (EvNode at_generate_query_or_respond :: log s)).
Proof. rewrite step_route. reflexivity. Qed.

Lemma stubborn_retrieve (m0 : Message) (rest : list Message) (s : Sys stubborn) :
  step stubborn (build_graph stubborn) at_retrieve
       (m0 :: rest ++ [AIMessage "" ["osmosis"]]) s =
  (Ok (at_rewrite_question,
       ((m0 :: rest ++ [AIMessage "" ["osmosis"]]) ++ [ToolMessage (passage_text "osmosis")])%list),
   mkSys stubborn (S (world s)) [passage_record "osmosis"]
         (EvGrade (content m0) (passage_text "osmosis") "no"
            :: EvToolMessage (passage_text "osmosis") :: EvRetrieved [passage "osmosis"]
            :: EvRetrieve "osmosis" :: EvNode at_retrieve :: log s)).
Proof.
  rewrite (step_retrieve_single stubborn m0 rest "" "osmosis" (passage_text "osmosis") s
             (mkSys stubborn (world s) [passage_record "osmosis"]
                    (EvRetrieved [passage "osmosis"] :: EvRetrieve "osmosis"
                       :: EvNode at_retrieve :: log s)));
    reflexivity.
Qed.

Lemma stubborn_rewrite (m0 : Message) (rest : list Message) (s : Sys stubborn) :
  step stubborn (build_graph stubborn) at_rewrite_question (m0 :: rest) s =
  (Ok (at_generate_query_or_respond, (m0 :: rest ++ [HumanMessage "rephrased"])%list),
   mkSys stubborn (world s) (retrieved_sources s)
         (EvRewrite (content m0) "rephrased" :: EvNode at_rewrite_question :: log s)).
Proof. rewrite step_rewrite. reflexivity. Qed.

Lemma stubborn_never_done (limit : nat) :
  forall (n : Node) (msgs : list Message) (s : Sys stubborn),
    in_cycle n msgs ->
    fst (run stubborn (build_graph stubborn) limit n msgs s) = Raise GraphRecursionError.
Proof.
  induction limit as [|k IH]; intros n msgs s Hin.
  - destruct n; simpl in Hin; try contradiction; reflexivity.
  - destruct n; simpl in Hin; try contradiction; destruct Hin as [m0 [rest ->]];
      cbn [run]; unfold bind.
    + rewrite stubborn_route. cbn [fst snd]. apply IH. exists m0, rest. reflexivity.
    + rewrite stubborn_retrieve. cbn [fst snd]. apply IH.
      exists m0, (rest ++ [AIMessage "" ["osmosis"]; ToolMessage (passage_text "osmosis")])%list.
      simpl. rewrite <- app_assoc. reflexivity.
    + rewrite stubborn_rewrite. cbn [fst snd]. apply IH.
      exists m0, (rest ++ [HumanMessage "rephrased"])%list. reflexivity.
Qed.

Lemma stubborn_counts (k : nat) :
  forall (m0 : Message) (rest : list Message) (s : Sys stubborn),
    let lg := log (snd (run stubborn (build_graph stubborn) (k * 3)
                            at_generate_query_or_respond (m0 :: rest) s)) in
    runs_of at_rewrite_question lg = runs_of at_rewrite_question (log s) + k /\
    runs_of at_retrieve lg = runs_of at_retrieve (log s) + k /\
    runs_of at_generate_answer lg = runs_of at_generate_answer (log s) /\
    retrievals lg = retrievals (log s) + k.
Proof.
  induction k as [|k IH]; intros m0 rest s; cbv zeta.
  - simpl. lia.
  - change (S k * 3) with (S (S (S (k * 3)))).
    cbn [run]. unfold bind. rewrite stubborn_route. cbn [fst snd].
    change ((m0 :: rest) ++ [AIMessage "" ["osmosis"]])%list
      with (m0 :: rest ++ [AIMessage "" ["osmosis"]])%list.
    rewrite stubborn_retrieve. cbn [fst snd].
    change ((m0 :: rest ++ [AIMessage "" ["osmosis"]])
              ++ [ToolMessage (passage_text "osmosis")])%list
      with (m0 :: (rest ++ [AIMessage "" ["osmosis"]])
                    ++ [ToolMessage (passage_text "osmosis")])%list.
    rewrite stubborn_rewrite. cbn [fst snd].
    match goal with |- context [run stubborn _ (k * 3) _ (m0 :: ?r) ?s1] =>
      destruct (IH m0 r s1) as [HW [HR [HG HC]]]
    end.
    rewrite HW, HR, HG, HC. simpl. lia.
Qed.

(** C1, counterexample.  With a router that always retrieves and a
    grader that always answers "no", the run is never done: whatever
    the step budget, it ends on the runtime's recursion error; and for
    every cap there is a budget under which the graph makes more than
    [cap] rewrite attempts, runs the retrieve node more than [cap + 1]
    times and calls the retriever more than [cap + 1] times, without
    ever generating. *)
Lemma rewrite_loop_has_no_cap :
  (forall limit : nat,
     fst (invoke stubborn (build_graph stubborn) limit "osmosis" (fresh stubborn 0 []))
     = Raise GraphRecursionError) /\
  (forall cap : nat,
     exists limit : nat,
       let lg := log (snd (invoke stubborn (build_graph stubborn) limit "osmosis"
                                  (fresh stubborn 0 []))) in
       cap < runs_of at_rewrite_question lg /\
       cap + 1 < runs_of at_retrieve lg /\
       cap + 1 < retrievals lg /\
       runs_of at_generate_answer lg = 0).
Proof.
  split.
  - intros limit. unfold invoke. apply stubborn_never_done.
    exists (HumanMessage "osmosis"), []. reflexivity.
  - intros cap. exists ((cap + 2) * 3). unfold invoke. cbn [entry build_graph].
    destruct (stubborn_counts (cap + 2) (HumanMessage "osmosis") [] (fresh stubborn 0 []))
      as [HW [HR [HG HC]]].
    cbv zeta. rewrite HW, HR, HG, HC. simpl. lia.
Qed.

(** C1, witness: the router of [stubborn] always asks for a tool and
    its grader never says "yes"; under the default budget the run ends
    by an exception. *)
Lemma rewrite_loop_follows_verdicts_witness :
  exists e,
    fst (invoke stubborn (build_graph stubborn) 25 "osmosis" (fresh stubborn 0 []))
    = Raise e.
Proof.
  pose proof (rewrite_loop_follows_verdicts stubborn 25 "osmosis" 0 []) as Hloop.
  cbv zeta in Hloop. destruct Hloop as [_ [_ [_ [_ [_ [_ [_ Hnever]]]]]]].
  apply Hnever.
  - intros msgs w0 c calls w1 Heq. injection Heq as _ <- _. discriminate.
  - intros prompt w0 w1 Heq. discriminate Heq.
Defined.

(** The stubborn run under LangGraph's default budget of 25 steps. *)
Example stubborn_default_budget :
  let out := ask_question stubborn 25 (mkQuestionRequest "osmosis" (Some true))
                          (fresh stubborn 0 []) in
  fst out = inl (mkHTTPException 500
                   "An error occurred: Recursion limit reached without hitting a stop condition.") /\
  runs_of at_rewrite_question (log (snd out)) = 8 /\
  runs_of at_retrieve (log (snd out)) = 8.
Proof. vm_compute. repeat split. Qed.

(** ** A grader outside its two words *)

(** C2, counterexample.  The structured output's score is "maybe"; the
    call does not fail, the edge goes to rewrite_question as for "no". *)
Lemma grader_accepts_other_words :
  grade_documents vague osmosis_retrieved (fresh vague 0 []) =
  (Ok at_rewrite_question,
   mkSys vague 1 [] [EvGrade "osmosis" (passage_text "osmosis") "maybe"]).
Proof. reflexivity. Qed.

(** C2, witness: the score "maybe" on the first retrieval. *)
Lemma grade_documents_compares_with_yes_witness :
  exists s',
    grade_documents vague osmosis_retrieved (fresh vague 0 []) = (Ok at_rewrite_question, s').
Proof.
  destruct (grade_documents_compares_with_yes vague "osmosis" [AIMessage "" ["osmosis"]]
              (ToolMessage (passage_text "osmosis")) (fresh vague 0 []) "maybe" 1 eq_refl)
    as [s' [Hedge _]].
  exists s'. exact Hedge.
Defined.

(** ** Two requests on one process *)

(** C3, counterexample.  The list is one per process.  After the
    request on "alpha" has returned, its record is still in the global,
    where the next handler finds it.  And when two handlers run their
    statements in turn (a server that runs handlers on several threads
    can produce this schedule: reset and graph run of the first, reset
    and graph run of the second, then the first assembles), the response
    to "alpha" carries the source retrieved for "beta". *)
Lemma sources_list_is_process_wide :
  retrieved_sources (snd (ask_question agreeable 25 alpha_request (fresh agreeable 0 [])))
    = [passage_record "alpha"] /\
  fst (fst (interleave agreeable 25 [true; true; false; false; true; false]
                       (before_reset alpha_request) (before_reset beta_request)
                       (fresh agreeable 0 [])))
    = returned (inr (mkQuestionResponse "alpha" "answer"
                       (Some [mkSourceDocument "beta.pdf" 3 "Notes on beta"]))).
Proof. split; vm_compute; reflexivity. Qed.

(** Served one after the other, each request gets its own source. *)
Example sequential_requests_keep_their_sources :
  let first := ask_question agreeable 25 alpha_request (fresh agreeable 0 []) in
  let second := ask_question agreeable 25 beta_request (snd first) in
  fst first = inr (mkQuestionResponse "alpha" "answer"
                     (Some [mkSourceDocument "alpha.pdf" 3 "Notes on alpha"])) /\
  fst second = inr (mkQuestionResponse "beta" "answer"
                      (Some [mkSourceDocument "beta.pdf" 3 "Notes on beta"])).
Proof. split; vm_compute; reflexivity. Qed.

(** ** A greeting *)

(** C5, witness: the question "hello" with sources asked for. *)
Lemma direct_response_has_no_sources_witness :
  fst (ask_question agreeable 25 hello_request (fresh agreeable 0 []))
    = inr (mkQuestionResponse "hello" "Hello! How can I help?" None) /\
  retrievals (log (snd (ask_question agreeable 25 hello_request (fresh agreeable 0 [])))) = 0.
Proof.
  destruct (direct_response_has_no_sources agreeable 23 hello_request (fresh agreeable 0 [])
              "Hello! How can I help?" 0 eq_refl) as [Hout Hnone].
  split; [rewrite Hout; reflexivity | exact Hnone].
Defined.

(** The one super-step of a direct reply needs a budget of 2: the
    runtime checks the budget once more before it finds nothing left to
    run. *)
Example direct_reply_needs_two_steps :
  fst (ask_question agreeable 1 hello_request (fresh agreeable 0 []))
    = inl (mkHTTPException 500
             "An error occurred: Recursion limit reached without hitting a stop condition.") /\
  fst (ask_question agreeable 2 hello_request (fresh agreeable 0 []))
    = inr (mkQuestionResponse "hello" "Hello! How can I help?" None).
Proof. split; vm_compute; reflexivity. Qed.

(** A direct reply to the rewritten query, after a retrieval: the list
    still holds that retrieval's record, and the response carries it. *)
Example direct_reply_after_rewrite_keeps_sources :
  fst (ask_question gives_up 25 osmosis_request (fresh gives_up 0 []))
    = inr (mkQuestionResponse "osmosis" "I could not find it."
             (Some [mkSourceDocument "osmosis.pdf" 3 "Notes on osmosis"])).
Proof. vm_compute. reflexivity. Qed.

(** ** A second try that succeeds *)


(** The rewritten query is a new last turn; turn 0 stays. *)
Example rewritten_query_is_appended :
  fst (steps second_try (build_graph second_try) 3 at_generate_query_or_respond
             [HumanMessage "osmosis"] (fresh second_try 0 []))
  = Ok (at_generate_query_or_respond,
        [HumanMessage "osmosis"; AIMessage "" ["osmosis"];
         ToolMessage (passage_text "osmosis"); HumanMessage "rephrased"]).
Proof. vm_compute. reflexivity. Qed.

(** ** An empty search *)

(** C7, witness: the index has nothing for "void". *)
Lemma empty_retrieval_is_graded_witness :
  step agreeable (build_graph agreeable) at_retrieve
       [HumanMessage "void"; AIMessage "" ["void"]] (fresh agreeable 0 [])
  = (Ok (at_generate_answer,
         [HumanMessage "void"; AIMessage "" ["void"]; ToolMessage NO_RESULTS]),
     mkSys agreeable 1 []
           [EvGrade "void" NO_RESULTS "yes"; EvToolMessage NO_RESULTS; EvRetrieved [];
            EvRetrieve "void"; EvNode at_retrieve]).
Proof.
  exact (proj2 (empty_retrieval_is_graded agreeable "void" "" "void" []
                  (fresh agreeable 0 []) 0 eq_refl)).
Defined.

(** ** A long passage *)

(** C8, witness: a passage of 210 characters. *)
Lemma preview_is_capped_prefix_witness :
  exists head rest,
    long_text = head ++ rest /\ String.length head = 200 /\
    prefix head long_text = true /\
    preview_of long_text = head ++ "...".
Proof.
  apply (proj2 (preview_is_capped_prefix long_doc
                  (mkSourceRecord (VStr "Unknown") 0 (preview_of long_text)) eq_refl)).
  apply Nat.ltb_lt. reflexivity.
Defined.

(** ** Collaborators that fail *)



(** ** Page entries *)


(** The page entry 2.5 is stored as 2. *)
Lemma page_is_integer_witness :
  exists r, source_record half_page_doc = Ok r /\ rec_page r = 2%Z.
Proof.
  destruct (page_is_integer half_page_doc eq_refl) as [r [Hrec [Hpage _]]].
  exists r. split; [exact Hrec | rewrite Hpage; reflexivity].
Defined.

(** A document with no page entry gets page 0. *)
Example missing_page_is_zero :
  source_record long_doc = Ok (mkSourceRecord (VStr "Unknown") 0 (preview_of long_text)).
Proof. reflexivity. Qed.

(** * Ingestion *)

Lemma dict_get_set_same (d : list (string * value)) (key : string) (v default : value) :
  dict_get (dict_set d key v) key default = v.
Proof.
  induction d as [|[k x] d IH]; simpl.
  - rewrite String.eqb_refl. reflexivity.
  - destruct (String.eqb k key) eqn:Hk; simpl; rewrite Hk; [reflexivity | exact IH].
Qed.

Lemma dict_get_set_other
  (d : list (string * value)) (key other : string) (v default : value) :
  other <> key -> dict_get (dict_set d key v) other default = dict_get d other default.
Proof.
  intros Hne. induction d as [|[k x] d IH]; simpl.
  - destruct (String.eqb_spec key other); [congruence | reflexivity].
  - destruct (String.eqb_spec k key) as [-> | Hk]; simpl.
    + destruct (String.eqb_spec key other); [congruence | reflexivity].
    + destruct (String.eqb k other); [reflexivity | exact IH].
Qed.

(** X7.  [load_pdfs] returns exactly the pages of the files that load,
    each tagged with its file's name: a returned document is a page of
    some listed file that loaded, with that file's name as source_file
    and its text and page entry unchanged, and every page of every
    listed file that loads is returned.  A file that fails to load
    contributes nothing and takes nothing from the others. *)
Theorem load_pdfs_tags_every_page
  (load : string -> result (list Document)) (name : string -> string)
  (pdf_files : list string) (doc : Document) :
  In doc (load_pdfs load name pdf_files) <->
  exists pdf_path pages page,
    In pdf_path pdf_files /\ load pdf_path = Ok pages /\ In page pages /\
    doc = tag_source (name pdf_path) page /\
    doc_source doc = VStr (name pdf_path) /\
    doc_page doc = doc_page page /\
    page_content doc = page_content page.
Proof.
  assert (Htag : forall n page,
             doc_source (tag_source n page) = VStr n /\
             doc_page (tag_source n page) = doc_page page /\
             page_content (tag_source n page) = page_content page).
  { intros n page. unfold doc_source, doc_page, tag_source. cbn [metadata page_content].
    split; [apply dict_get_set_same|]. split; [|reflexivity].
    apply dict_get_set_other. discriminate. }
  induction pdf_files as [|pdf_path rest IH]; simpl.
  - split; [intros [] | intros [p [pages [page [[] _]]]]].
  - destruct (load pdf_path) as [docs | e] eqn:Hload.
    + rewrite in_app_iff, in_map_iff. split.
      * intros [[page [<- Hpage]] | Hrest].
        -- exists pdf_path, docs, page. destruct (Htag (name pdf_path) page) as [H1 [H2 H3]].
           repeat split; auto.
        -- destruct (proj1 IH Hrest) as [p [pages [page [Hp Hmore]]]].
           exists p, pages, page. split; [right; exact Hp | exact Hmore].
      * intros [p [pages [page [[<- | Hp] [Hpages [Hpage [Hdoc Hmore]]]]]]].
        -- left. exists page. rewrite Hload in Hpages. injection Hpages as <-.
           split; [symmetry; exact Hdoc | exact Hpage].
        -- right. apply (proj2 IH). exists p, pages, page. repeat split; tauto.
    + split.
      * intros Hrest. destruct (proj1 IH Hrest) as [p [pages [page [Hp Hmore]]]].
        exists p, pages, page. split; [right; exact Hp | exact Hmore].
      * intros [p [pages [page [[<- | Hp] [Hpages [Hpage [Hdoc Hmore]]]]]]].
        -- rewrite Hload in Hpages. discriminate.
        -- apply (proj2 IH). exists p, pages, page. repeat split; tauto.
Qed.

(** X8.  A page that went through [load_pdfs] is always citable: when
    the retrieval tool builds its record, the record's source is the
    name of the PDF file (never "Unknown"), the response model accepts
    it, and page and preview are those of the page as loaded. *)
Theorem ingested_page_is_citable (name : string) (page : Document) (r : SourceRecord) :
  source_record (tag_source name page) = Ok r ->
  source_record page = Ok (mkSourceRecord (doc_source page) (rec_page r) (rec_content_preview r)) /\
  SourceDocument_of r
  = Ok (mkSourceDocument name (rec_page r) (preview_of (page_content page))).
Proof.
  unfold source_record, doc_page, doc_source, tag_source. cbn [metadata page_content].
  rewrite dict_get_set_same, dict_get_set_other by discriminate.
  destruct (page_of (dict_get (metadata page) "page" (VStr "Unknown"))) as [n | e];
    [|discriminate].
  intros Heq. injection Heq as <-. split; reflexivity.
Qed.

Lemma ceil_bounds (n size : nat) :
  0 < size ->
  n <= (n + size - 1) / size * size /\
  forall k, k < (n + size - 1) / size -> k * size < n.
Proof.
  intros Hsize.
  pose proof (Nat.div_mod_eq (n + size - 1) size) as Hdiv.
  pose proof (Nat.mod_upper_bound (n + size - 1) size ltac:(lia)) as Hmod.
  split; [nia|]. intros k Hk. nia.
Qed.

Lemma concat_chunks {A : Type} (size m : nat) :
  forall l : list A,
    List.length l <= m * size ->
    concat (map (fun k => firstn size (skipn (k * size) l)) (seq 0 m)) = l.
Proof.
  induction m as [|m IH]; intros l Hlen.
  - destruct l; [reflexivity | simpl in Hlen; lia].
  - cbn [seq map concat]. rewrite <- seq_shift, map_map.
    rewrite (map_ext _ (fun k => firstn size (skipn (k * size) (skipn size l)))).
    + rewrite IH; [apply firstn_skipn|]. rewrite length_skipn. lia.
    + intros k. rewrite skipn_skipn. f_equal. f_equal. lia.
Qed.

Lemma slice_batch {A : Type} (i size : nat) (l : list A) :
  slice i (i + size) l = firstn size (skipn i l).
Proof. unfold slice. f_equal. lia. Qed.

(** X9.  The storing loop hands every chunk to the store exactly once
    and in order: for a positive batch size the batches, put end to
    end, are the list of chunks; no batch is empty and none has more
    than the batch size; their number is the chunk count divided by the
    batch size, rounded up; and the last count printed is the number of
    chunks. *)
Theorem batches_partition_the_chunks {A : Type} (size : nat) (chunks : list A) :
  0 < size ->
  concat (batches size chunks) = chunks /\
  Forall (fun b => 1 <= List.length b <= size) (batches size chunks) /\
  List.length (batches size chunks) = (List.length chunks + size - 1) / size /\
  (chunks <> [] -> last (progress size chunks) 0 = List.length chunks).
Proof.
  intros Hsize. destruct (ceil_bounds (List.length chunks) size Hsize) as [Hcover Hbelow].
  unfold batches, progress, range_from_zero. rewrite !map_map.
  split; [|split; [|split]].
  - rewrite (map_ext _ (fun k => firstn size (skipn (k * size) chunks)))
      by (intros k; apply slice_batch).
    apply concat_chunks. exact Hcover.
  - apply Forall_forall. intros b Hb. apply in_map_iff in Hb.
    destruct Hb as [k [<- Hk]]. apply in_seq in Hk. rewrite slice_batch.
    rewrite length_firstn, length_skipn. specialize (Hbelow k ltac:(lia)). lia.
  - rewrite length_map, length_seq. reflexivity.
  - intros Hne.
    assert (Hpos : 0 < List.length chunks) by (destruct chunks; [congruence | simpl; lia]).
    remember ((List.length chunks + size - 1) / size) as m eqn:Hm.
    destruct m as [|m]; [simpl in Hcover; lia|].
    rewrite seq_S, map_app. cbn [map]. rewrite last_last. lia.
Qed.

(** * The added properties on scripted collaborators *)

(** X1, witness: one passage found, a stale record in the global. *)
Lemma retrieval_records_every_document_witness :
  retrieve_from_books agreeable "osmosis" (fresh agreeable 0 [passage_record "stale"])
  = (Ok (passage_text "osmosis"),
     mkSys agreeable 0 [passage_record "osmosis"]
           [EvRetrieved [passage "osmosis"]; EvRetrieve "osmosis"]).
Proof.
  assert (Hrecords : records_of [passage "osmosis"] [passage_record "osmosis"])
    by (constructor; [reflexivity | constructor]).
  exact (proj1 (retrieval_records_every_document agreeable "osmosis"
                  (fresh agreeable 0 [passage_record "stale"]) [passage "osmosis"] 0
                  [passage_record "osmosis"] eq_refl Hrecords)).
Defined.

(** X2, witness: the second of three documents has a NaN page. *)
Lemma retrieval_failure_leaves_partial_records_witness :
  retrieve_from_books flawed "osmosis" (fresh flawed 0 [])
  = (Raise ValueError,
     mkSys flawed 0 [passage_record "osmosis"]
           [EvRetrieved [passage "osmosis"; nan_page_doc; passage "later"];
            EvRetrieve "osmosis"]).
Proof.
  assert (Hrecords : records_of [passage "osmosis"] [passage_record "osmosis"])
    by (constructor; [reflexivity | constructor]).
  exact (retrieval_failure_leaves_partial_records flawed "osmosis" (fresh flawed 0 [])
           [passage "osmosis"] [passage "later"] nan_page_doc 0
           [passage_record "osmosis"] ValueError eq_refl Hrecords eq_refl).
Defined.

(** X4, witness: the answer after a second try is the last turn of
    the run. *)
Lemma answer_is_a_model_reply_witness :
  exists mid,
    fst (invoke second_try (build_graph second_try) 25 "osmosis"
                (cleared second_try (fresh second_try 0 [])))
    = Ok (HumanMessage "osmosis" :: mid ++ [AIMessage "answer" []])%list.
Proof.
  destruct (answer_is_a_model_reply second_try 25 osmosis_request
              (fresh second_try 0 [])
              (snd (ask_question second_try 25 osmosis_request (fresh second_try 0 [])))
              (mkQuestionResponse "osmosis" "answer"
                 (Some [mkSourceDocument "rephrased.pdf" 3 "Notes on rephrased"]))
              eq_refl)
    as [mid [Hrun _]].
  exists mid. cbn [question osmosis_request resp_answer] in Hrun. rewrite Hrun. reflexivity.
Defined.


(** Two tool calls in one reply.  When the two threads take their
    steps in turn, both empty the list before either appends, and the
    response cites both retrievals; when the first thread is done
    before the second starts, the response cites the second only. *)
Example two_calls_share_the_list :
  fst (ask_question (two_calls round_robin) 25 alpha_request (fresh (two_calls round_robin) 0 []))
  = inr (mkQuestionResponse "alpha" "answer"
           (Some [mkSourceDocument "alpha.pdf" 3 "Notes on alpha";
                  mkSourceDocument "beta.pdf" 3 "Notes on beta"])) /\
  fst (ask_question (two_calls in_order) 25 alpha_request (fresh (two_calls in_order) 0 []))
  = inr (mkQuestionResponse "alpha" "answer"
           (Some [mkSourceDocument "beta.pdf" 3 "Notes on beta"])).
Proof. split; vm_compute; reflexivity. Qed.

(** One run of the retrieve node on a reply with two tool calls is two
    calls of the retriever. *)
Example two_calls_in_one_node_run :
  let out := ask_question (two_calls round_robin) 25 alpha_request
                          (fresh (two_calls round_robin) 0 []) in
  retrievals (log (snd out)) = 2 /\ runs_of at_retrieve (log (snd out)) = 1.
Proof. split; vm_compute; reflexivity. Qed.

(** X8, witness: a page of book.pdf. *)
Lemma ingested_page_is_citable_witness :
  SourceDocument_of (mkSourceRecord (VStr "book.pdf") 4 "text")
  = Ok (mkSourceDocument "book.pdf" 4 "text").
Proof.
  exact (proj2 (ingested_page_is_citable "book.pdf" (mkDocument "text" [("page", VInt 4)])
                  (mkSourceRecord (VStr "book.pdf") 4 "text") eq_refl)).
Defined.

(** X9, witness: 250 chunks in batches of 100. *)
Lemma batches_partition_the_chunks_witness :
  concat (batches batch_size (seq 0 250)) = seq 0 250 /\
  List.length (batches batch_size (seq 0 250)) = 3 /\
  progress batch_size (seq 0 250) = [100; 200; 250].
Proof.
  destruct (batches_partition_the_chunks batch_size (seq 0 250) (Nat.lt_0_succ 99))
    as [Hconcat [_ [Hcount _]]].
  split; [exact Hconcat|]. split; [rewrite Hcount|]; vm_compute; reflexivity.
Defined.

(** A file that does not load is skipped; the others keep their pages. *)
Example load_pdfs_skips_a_broken_file :
  load_pdfs (fun path => if String.eqb path "broken.pdf" then Raise (Failure "not a PDF")
                         else Ok [mkDocument ("page of " ++ path) [("page", VInt 0)]])
            (fun path => path) ["a.pdf"; "broken.pdf"; "b.pdf"]
  = [mkDocument "page of a.pdf" [("page", VInt 0); ("source_file", VStr "a.pdf")];
     mkDocument "page of b.pdf" [("page", VInt 0); ("source_file", VStr "b.pdf")]].
Proof. reflexivity. Qed.

(** * Console output *)

Local Open Scope list_scope.
Local Open Scope Z_scope.

Lemma visible_app (a b : text) : visible (a ++ b) = visible a + visible b.
Proof.
  induction a as [|x a IH]; [reflexivity|].
  destruct x; cbn [app visible]; rewrite IH; lia.
Qed.

Lemma py_len_app (a b : text) : py_len (a ++ b) = py_len a + py_len b.
Proof.
  induction a as [|x a IH]; [reflexivity|].
  destruct x; cbn [app py_len]; rewrite IH; lia.
Qed.

Lemma visible_times (c : N) (n : Z) : visible (times c n) = Z.max 0 n.
Proof.
  unfold times. destruct (Z_le_gt_dec n 0) as [Hneg | Hpos].
  - replace (Z.to_nat n) with O by lia. simpl. lia.
  - rewrite <- (Z2Nat.id n) at 2 by lia.
    induction (Z.to_nat n) as [|k IH]; [reflexivity|].
    cbn [repeat visible]. rewrite IH. lia.
Qed.

Lemma visible_bounds (t : text) : 0 <= visible t <= py_len t.
Proof.
  induction t as [|x t IH]; [simpl; lia|].
  destruct x; cbn [visible py_len]; lia.
Qed.

Ltac widths :=
  unfold Fore_GREEN, Fore_CYAN, Fore_WHITE, Style_BRIGHT, Style_RESET_ALL;
  repeat (rewrite ?visible_app, ?py_len_app, ?visible_times; cbn [app visible py_len]).

Lemma box_row_visible (color : list N) (width : Z) (line : text) :
  visible (box_row color width line)
  = 4 + visible line + Z.max 0 (width - py_len line - 4).
Proof. unfold box_row. widths. lia. Qed.

Lemma answer_row_visible (width : Z) (line : text) :
  visible (answer_row width line)
  = 4 + visible line + Z.max 0 (width - py_len line - 4).
Proof. unfold answer_row. widths. lia. Qed.

(** X10.  [print_box] draws a box of [width] visible characters: for a
    width of at least 2 the two borders show [width] characters; the
    line printed for a line of the message that fits (at most
    [width - 4] characters) shows [width] characters less one for every
    character of a colour code inside the line, because the padding is
    computed from [len(line)]; so when the message's lines fit and hold
    no colour code, everything printed is [width] wide. *)
Theorem print_box_alignment (message : text) (color : list N) (width : Z) :
  2 <= width ->
  visible (top_border color width) = width /\
  visible (bottom_border color width) = width /\
  (forall line,
     In line (split_lines message) -> py_len line <= width - 4 ->
     visible (box_row color width line) = width - (py_len line - visible line)) /\
  ((forall line,
      In line (split_lines message) ->
      py_len line = visible line /\ py_len line <= width - 4) ->
   Forall (fun printed => visible printed = width) (print_box message color width)).
Proof.
  intros Hwidth.
  assert (Htop : visible (top_border color width) = width)
    by (unfold top_border; widths; lia).
  assert (Hbottom : visible (bottom_border color width) = width)
    by (unfold bottom_border; widths; lia).
  split; [exact Htop|]. split; [exact Hbottom|]. split.
  - intros line _ Hfits. rewrite box_row_visible. lia.
  - intros Hplain. unfold print_box. constructor; [exact Htop|].
    apply Forall_app. split; [|constructor; [exact Hbottom | constructor]].
    apply Forall_forall. intros printed Hin. apply in_map_iff in Hin.
    destruct Hin as [line [<- Hline]]. destruct (Hplain line Hline) as [Hcodes Hfits].
    rewrite box_row_visible. lia.
Qed.

(** X11.  A section header is as wide as the section's closing line:
    for a title that fits (its length plus 4 is at most [width]),
    [print_section] shows [width] characters, less one for every
    character of a colour code inside the title, and
    [print_section_end] shows [width] characters. *)
Theorem section_header_matches_footer (title : text) (color : list N) (width : Z) :
  py_len title + 4 <= width ->
  visible (print_section title color width) = width - (py_len title - visible title) /\
  visible (print_section_end color width) = width.
Proof.
  intros Hfits. pose proof (visible_bounds title) as Hbounds.
  unfold print_section, print_section_end. cbv zeta. widths.
  split; [|lia].
  set (d := width - (1 + 0 + (py_len title + (1 + 0))) - 2).
  assert (Hroom : 0 <= d) by (subst d; lia).
  assert (Hhalf : 0 <= d / 2 <= d) by (Z.div_mod_to_equations; lia).
  replace (width - d / 2 - (1 + 0 + (py_len title + (1 + 0))) - 2) with (d - d / 2)
    by (subst d; lia).
  lia.
Qed.

(** X12.  In the box [print_answer] draws, the title line is one
    character narrower than the rest: for a width of at least 22 the
    borders and the separator show [width] characters, and so does the
    line printed for a wrapped line that fits and holds no colour code,
    but the title line shows [width - 1], so its right border stands
    one column to the left. *)
Theorem answer_title_is_one_short
  (blank : text -> bool) (wrap : text -> Z -> list text) (answer : text) (width : Z) :
  22 <= width ->
  (exists rows,
     print_answer blank wrap answer width
     = (Glyph 10%N :: answer_top width) :: answer_title width :: answer_separator width
         :: rows ++ [answer_bottom width ++ [Glyph 10%N]]) /\
  visible (answer_top width) = width /\
  visible (answer_separator width) = width /\
  visible (answer_bottom width) = width /\
  visible (answer_title width) = width - 1 /\
  (forall line,
     py_len line = visible line -> py_len line <= width - 4 ->
     visible (answer_row width line) = width).
Proof.
  intros Hwidth. split; [eexists; reflexivity|].
  split; [unfold answer_top; widths; lia|].
  split; [unfold answer_separator; widths; lia|].
  split; [unfold answer_bottom; widths; lia|].
  split.
  - unfold answer_title. widths.
    change (visible (lit "ASSISTANT RESPONSE")) with 18. lia.
  - intros line Hcodes Hfits. rewrite answer_row_visible. lia.
Qed.

(** X10, witness: a two-line message in a box of 20. *)
Lemma print_box_alignment_witness :
  Forall (fun printed => visible printed = 20)
         (print_box (lit "Books RAG" ++ [Glyph 10%N] ++ lit "ready") [27; 91; 51; 54; 109]%N 20).
Proof.
  apply (print_box_alignment (lit "Books RAG" ++ [Glyph 10%N] ++ lit "ready")
           [27; 91; 51; 54; 109]%N 20).
  - lia.
  - intros line Hin. vm_compute in Hin. destruct Hin as [<- | [<- | []]]; vm_compute;
      split; congruence.
Defined.

(** X11, witness: the title GRADING in a section of 70. *)
Lemma section_header_matches_footer_witness :
  visible (print_section (lit "GRADING") [27; 91; 51; 51; 109]%N 70) = 70 /\
  visible (print_section_end [27; 91; 51; 51; 109]%N 70) = 70.
Proof.
  apply (section_header_matches_footer (lit "GRADING") [27; 91; 51; 51; 109]%N 70).
  vm_compute. congruence.
Defined.

(** X12, witness: the default width of 70. *)
Lemma answer_title_is_one_short_witness :
  visible (answer_top 70) = 70 /\ visible (answer_title 70) = 69.
Proof.
  destruct (answer_title_is_one_short (fun _ => false) (fun line _ => [line]) [] 70)
    as [_ [Htop [_ [_ [Htitle _]]]]]; [lia|].
  split; [exact Htop | exact Htitle].
Defined.

(** A coloured line, as in the banner of [chat]: the colour code's five
    characters count in [len(line)], and the row is five short. *)
Example coloured_line_is_short :
  visible (box_row [27; 91; 51; 50; 109]%N 70 (Fore_CYAN :: lit "Ask questions")) = 65.
Proof. reflexivity. Qed.
